(** * Keystroke-dynamics authentication: the matching core of
      [keystroke_auth.py], embedded in Rocq.

    Python [float]s are IEEE-754 binary64 values; they are modelled by the
    Standard Library's executable specification [SpecFloat] at precision 53
    and maximal exponent 1024.  [statistics.mean] adds its data as exact
    fractions and rounds the quotient once; it is modelled with [Q]. *)

From Stdlib Require Import ZArith QArith Qreduction Lia SpecFloat Zpower.
From stdpp Require Import gmap strings list.

Close Scope Q_scope.

(** ** Binary64 arithmetic *)

Module F64.

Local Open Scope Z_scope.

Definition prec : Z := 53.
Definition emax : Z := 1024.

Definition float : Type := spec_float.

Definition zero : float := S754_zero false.
Definition inf : float := S754_infinity false.

Definition sub : float -> float -> float := SFsub prec emax.
Definition add : float -> float -> float := SFadd prec emax.
Definition mul : float -> float -> float := SFmul prec emax.
Definition abs : float -> float := SFabs.
(** Python's [<=] and [==] on floats. *)
Definition leb : float -> float -> bool := SFleb.
Definition eqb : float -> float -> bool := SFeqb.

(** A value a Python float can hold: the mantissa of a finite one is in
    canonical form. *)
Definition valid (x : float) : bool := valid_binary prec emax x.

Definition is_finite (x : float) : bool :=
  match x with
  | S754_zero _ | S754_finite _ _ _ => true
  | _ => false
  end.

(** A real number: a finite Python float. *)
Definition real (x : float) : bool := valid x && is_finite x.

(** [-0.0] read as [0.0]; the two are equal for Python's [==]. *)
Definition unsigned_zero (x : float) : float :=
  match x with
  | S754_zero _ => zero
  | _ => x
  end.

(** The exact value of a finite float, as [float.as_integer_ratio] gives
    it (up to reduction of the fraction). *)
Definition to_Q (x : float) : Q :=
  match x with
  | S754_finite s m e =>
      match e with
      | Zneg p => cond_Zopp s (Zpos m) # 2 ^ p
      | _ => inject_Z (cond_Zopp s (Zpos m) * 2 ^ e)
      end
  | _ => 0%Q
  end.

(** The float nearest to [n / d], ties to even: the result of Python's
    true division of the integer [n] by the positive integer [d], which is
    also how a [Fraction] is converted to a float.  (Python raises
    OverflowError where this gives an infinity; a mean of floats and the
    literals below never get there.) *)
Definition of_ratio (n : Z) (d : positive) : float :=
  match n with
  | Z0 => zero
  | _ =>
      let '(q, e, l) := SFdiv_core_binary prec emax (Z.abs n) 0 (Zpos d) 0 in
      binary_round_aux prec emax (n <? 0) q e l
  end.

Definition of_Q (q : Q) : float := of_ratio (Qnum q) (Qden q).

(** [lit n k] is the decimal literal [n / 10^k], e.g. [lit 8 2] for
    [0.08]. *)
Definition lit (n : Z) (k : nat) : float := of_ratio n (Z.to_pos (10 ^ Z.of_nat k)).

(** [signed s x]: [x] is a zero, an infinity or a finite number of sign [s]
    (in particular no NaN). *)
Definition signed (s : bool) (x : float) : Prop :=
  x = S754_zero s \/ x = S754_infinity s \/ exists m e, x = S754_finite s m e.

End F64.

Abbreviation float := F64.float.

(** ** Exceptions and results *)

Inductive exn : Type :=
  | StatisticsError   (* statistics.mean of no data *)
  | TypeError         (* item assignment on a JSON value that is no object *)
  | EOFError          (* input() with nothing left to read *)
  | OSError.          (* open() of a file the system does not let open *)

Inductive result (A : Type) : Type :=
  | Ok (a : A)
  | Raise (e : exn).
Arguments Ok {A} a.
Arguments Raise {A} e.

Definition rbind {A B : Type} (r : result A) (k : A -> result B) : result B :=
  match r with
  | Ok a => k a
  | Raise e => Raise e
  end.

(** A list comprehension whose body may raise: the first exception ends it. *)
Fixpoint rmap {A B : Type} (f : A -> result B) (l : list A) : result (list B) :=
  match l with
  | [] => Ok []
  | x :: l' => rbind (f x) (fun y => rbind (rmap f l') (fun ys => Ok (y :: ys)))
  end.

(** ** [statistics.mean] *)

(** CPython's [statistics.mean] on floats: the data are summed as exact
    fractions ([Fraction]s, kept reduced) and the quotient by their number is
    converted to a float, rounding once.  As soon as one datum is an infinity
    or a NaN the finite ones are ignored and the others are added as floats;
    their sum, an infinity or a NaN, is the result.  No data raise
    StatisticsError. *)
Definition mean (data : list float) : result float :=
  match data with
  | [] => Raise StatisticsError
  | _ :: _ =>
      match List.filter (fun x => negb (F64.is_finite x)) data with
      | [] =>
          let total := fold_left Qplus (List.map F64.to_Q data) 0%Q in
          Ok (F64.of_Q (Qred (total / inject_Z (Z.of_nat (length data)))))
      | x :: xs => Ok (fold_left F64.add xs x)
      end
  end.

(** ** Feature extractor, matcher and aggregator *)

Definition PASSWORD : string := "secret".

(** [extract_features], lines 163-177.  The two guards keep every index
    below both lengths, so the default of [nth] is never read. *)
Definition extract_features (typed : string) (press_times release_times : list float)
  : option (list float) :=
  if negb (String.eqb typed PASSWORD) then None
  else
    let n := String.length PASSWORD in
    if ((length press_times <? n) || (length release_times <? n))%nat then None
    else
      let dwell :=
        List.map (fun i => F64.sub (nth i release_times F64.zero) (nth i press_times F64.zero))
                 (seq 0 n) in
      let flight :=
        List.map (fun i => F64.sub (nth i press_times F64.zero) (nth (i - 1) press_times F64.zero))
                 (seq 1 (n - 1)) in
      Some (dwell ++ flight).

(** [compare_features], lines 200-204. *)
Definition compare_features (f1 f2 : option (list float)) : result float :=
  match f1, f2 with
  | Some f1, Some f2 =>
      if negb (length f1 =? length f2)%nat then Ok F64.inf
      else
        let diffs := List.map (fun ab => F64.abs (F64.sub (fst ab) (snd ab))) (combine f1 f2) in
        mean diffs
  | _, _ => Ok F64.inf
  end.

(** [zip] applied to the unpacked samples: the columns, as many as the
    shortest sample has entries. *)
Definition zip_star (samples : list (list float)) : list (list float) :=
  match samples with
  | [] => []
  | s0 :: rest =>
      let width := fold_right Nat.min (length s0) (List.map (@length float) rest) in
      List.map (fun j => List.map (fun s => nth j s F64.zero) samples) (seq 0 width)
  end.

(** [average_samples], lines 210-217. *)
Definition average_samples (samples : list (list float)) : result (option (list float)) :=
  match samples with
  | [] => Ok None
  | s0 :: _ =>
      let length0 := length s0 in
      if forallb (fun s => (length s =? length0)%nat) samples
      then rbind (rmap mean (zip_star samples)) (fun avg => Ok (Some avg))
      else Ok None
  end.

(** The test [score <= threshold] of lines 260-263. *)
Inductive decision : Type := ACCEPT | REJECT.

Definition decision_of (score threshold : float) : decision :=
  if F64.leb score threshold then ACCEPT else REJECT.

(** ** Profile store *)

(** What [json.load] makes of the content of [profiles.json]: it raises
    (undecodable bytes or no JSON text), or returns a value that is no
    object, or returns an object.  The objects considered map every name to
    what [save_profile] writes: [null] or an array of floats, which
    [json.dump] and [json.load] carry unchanged. *)
Inductive json : Type :=
  | JObject (data : gmap string (option (list float)))
  | JOther.

Inductive content : Type :=
  | Unparseable
  | Document (j : json).

(** The profile file: [None] when [os.path.exists(PROFILE_FILE)] is false.
    A file that exists is taken to open for reading and for writing; [store]
    and the functions of [OS] below do without that assumption. *)
Definition file : Type := option content.

Definition json_load (c : content) : option json :=
  match c with
  | Unparseable => None
  | Document j => Some j
  end.

(** [load_profile], lines 191-198.  On a value that is no object [.get]
    raises AttributeError inside the [try]. *)
Definition load_profile (name : string) (f : file) : option (list float) :=
  match f with
  | None => None
  | Some c =>
      match json_load c with
      | Some (JObject data) =>
          match data !! name with
          | Some v => v
          | None => None
          end
      | Some JOther => None
      | None => None
      end
  end.

(** [save_profile], lines 179-189: the outcome of the call and the file it
    leaves.  On a value that is no object [data[name] = features] raises
    TypeError before the file is opened for writing. *)
Definition save_profile (name : string) (features : option (list float)) (f : file)
  : result unit * file :=
  let data :=
    match f with
    | None => JObject ∅
    | Some c =>
        match json_load c with
        | Some j => j
        | None => JObject ∅
        end
    end in
  match data with
  | JObject d => (Ok tt, Some (Document (JObject (<[name := features]> d))))
  | JOther => (Raise TypeError, f)
  end.

(** ** The profile file under the operating system *)

(** [PROFILE_FILE] as the operating system presents it.  A path that is
    absent may or may not be one the program can create.  A path that is
    present (a file, a directory) may or may not open for reading, and for
    writing; where the system refuses, [open] raises OSError
    (PermissionError, IsADirectoryError). *)
Inductive store : Type :=
  | Absent (creatable : bool)
  | Present (readable writable : bool) (c : content).

Module OS.

(** [load_profile], lines 191-198, with [open] as the source has it, outside
    the [try]. *)
Definition load_profile (name : string) (s : store) : result (option (list float)) :=
  match s with
  | Absent _ => Ok None
  | Present false _ _ => Raise OSError
  | Present true _ c =>
      match json_load c with
      | Some (JObject data) =>
          match data !! name with
          | Some v => Ok v
          | None => Ok None
          end
      | Some JOther => Ok None
      | None => Ok None
      end
  end.

(** [save_profile], lines 179-189: the outcome of the call and the store it
    leaves.  A file that exists is opened for reading, outside the [try];
    then [data[name] = features] is done; then the file is opened for
    writing, which creates it when it is absent.  A file the call creates
    opens for reading and for writing afterwards. *)
Definition save_profile (name : string) (features : option (list float)) (s : store)
  : result unit * store :=
  let data : result json :=
    match s with
    | Absent _ => Ok (JObject ∅)
    | Present false _ _ => Raise OSError
    | Present true _ c =>
        match json_load c with
        | Some j => Ok j
        | None => Ok (JObject ∅)
        end
    end in
  match data with
  | Raise e => (Raise e, s)
  | Ok JOther => (Raise TypeError, s)
  | Ok (JObject d) =>
      let written := Document (JObject (<[name := features]> d)) in
      match s with
      | Absent true => (Ok tt, Present true true written)
      | Present readable true _ => (Ok tt, Present readable true written)
      | Absent false | Present _ false _ => (Raise OSError, s)
      end
  end.

End OS.

(** ** Orchestrators *)

Record sample : Type := Sample {
  typed : string;
  press : list float;
  rel : list float
}.

Inductive message : Type :=
  | MsgRegistering (name : string)
  | MsgRecordingSample (i : nat)
  | MsgAborting                    (* Typed text did not match password. Aborting registration. *)
  | MsgCaptured (i : nat)
  | MsgSaved (name : string)
  | MsgProfileNotFound             (* Profile not found. *)
  | MsgTryAgain                    (* Typed text did not match password. Try again. *)
  | MsgScore (score : float)       (* Mean absolute feature difference = ... seconds *)
  | MsgGranted                     (* Access Granted *)
  | MsgDenied.                     (* Access Denied *)

Inductive event : Type :=
  | Print (m : message)
  | Capture                         (* one call of a recorder *)
  | Save (name : string) (features : option (list float)).

(** The world an orchestrator runs in: the profile file, the attempts the
    recorder will return, and what has happened so far. *)
Record world : Type := World {
  disk : file;
  keyboard : list sample;
  log : list event
}.

Definition M (A : Type) : Type := world -> result A * world.

Definition ret {A : Type} (a : A) : M A := fun w => (Ok a, w).

Definition bind {A B : Type} (m : M A) (k : A -> M B) : M B :=
  fun w =>
    match m w with
    | (Ok a, w') => k a w'
    | (Raise e, w') => (Raise e, w')
    end.

#[global] Instance M_ret : MRet M := @ret.
#[global] Instance M_bind : MBind M := fun A B k m => bind m k.

Definition lift {A : Type} (r : result A) : M A := fun w => (r, w).

Definition emit (e : event) : M unit :=
  fun w => (Ok tt, World (disk w) (keyboard w) (log w ++ [e])).

Definition print (m : message) : M unit := emit (Print m).

(** Either recorder ([record_keystrokes_pynput], [record_keystrokes_fallback]):
    it returns the next attempt of the user, [(typed, press, rel)]; with no
    input left, [input()] raises EOFError. *)
Definition next_attempt : M sample :=
  fun w =>
    match keyboard w with
    | [] => (Raise EOFError, w)
    | s :: rest => (Ok s, World (disk w) rest (log w))
    end.

Definition record_keystrokes : M sample :=
  emit Capture;; next_attempt.

Definition load (name : string) : M (option (list float)) :=
  fun w => (Ok (load_profile name (disk w)), w).

Definition write (name : string) (features : option (list float)) : M unit :=
  fun w =>
    let '(r, f) := save_profile name features (disk w) in
    (r, World f (keyboard w) (log w)).

Definition save (name : string) (features : option (list float)) : M unit :=
  emit (Save name features);; write name features.

(** The loop of [interactive_register], lines 226-238: [None] stands for the
    [return False] inside it. *)
Fixpoint register_loop (indices : list nat) (samples : list (list float))
  : M (option (list (list float))) :=
  match indices with
  | [] => mret (Some samples)
  | i :: indices' =>
      print (MsgRecordingSample (i + 1));;
      s ← record_keystrokes;
      match extract_features (typed s) (press s) (rel s) with
      | None => print MsgAborting;; mret None
      | Some features =>
          print (MsgCaptured (i + 1));;
          register_loop indices' (samples ++ [features])
      end
  end.

(** [interactive_register], lines 219-242. *)
Definition interactive_register (name : string) : M bool :=
  print (MsgRegistering name);;
  r ← register_loop (seq 0 3) [];
  match r with
  | None => mret false
  | Some samples =>
      avg ← lift (average_samples samples);
      save name avg;;
      print (MsgSaved name);;
      mret true
  end.

(** The end of [interactive_test], lines 258-263: score, report, decide. *)
Definition report (stored : option (list float)) (features : list float) (threshold : float)
  : M unit :=
  score ← lift (compare_features stored (Some features));
  print (MsgScore score);;
  match decision_of score threshold with
  | ACCEPT => print MsgGranted
  | REJECT => print MsgDenied
  end.

(** [interactive_test], lines 244-263; [None] for an omitted [threshold]. *)
Definition interactive_test (name : string) (threshold : option float) : M unit :=
  let threshold := default (F64.lit 10 2) threshold in
  stored ← load name;
  match stored with
  | None => print MsgProfileNotFound
  | Some _ =>
      s ← record_keystrokes;
      match extract_features (typed s) (press s) (rel s) with
      | None => print MsgTryAgain
      | Some features => report stored features threshold
      end
  end.

(** What an observer of the output concludes: access is granted only by the
    message saying so. *)
Definition granted (e : event) : bool :=
  match e with
  | Print MsgGranted => true
  | _ => false
  end.

Definition verdict (l : list event) : decision :=
  if existsb granted l then ACCEPT else REJECT.

(** The demo's reference profile and its impostor, lines 267-278. *)
Definition base_profile : list float :=
  [F64.lit 8 2; F64.lit 9 2; F64.lit 7 2; F64.lit 10 2; F64.lit 9 2; F64.lit 8 2;
   F64.lit 12 2; F64.lit 11 2; F64.lit 10 2; F64.lit 14 2; F64.lit 13 2].

Definition impostor_base : list float :=
  List.map (fun v => F64.mul v (F64.lit 13 1)) base_profile.

(** ** Predicates used in the statements *)


Definition is_capture (e : event) : bool :=
  match e with
  | Capture => true
  | _ => false
  end.

Definition is_save (e : event) : bool :=
  match e with
  | Save _ _ => true
  | _ => false
  end.


(** What the loop of [interactive_register] logs for [n] good attempts
    numbered from [a]. *)
Definition loop_output (a n : nat) : list event :=
  flat_map (fun i => [Print (MsgRecordingSample (i + 1)); Capture; Print (MsgCaptured (i + 1))])
           (seq a n).


(** Timestamps in non-decreasing order, for Python's [<=]. *)
Fixpoint nondecreasing (l : list float) : bool :=
  match l with
  | a :: (b :: _) as l' => F64.leb a b && nondecreasing l'
  | _ => true
  end.

(** No key is released before it is pressed. *)
Definition released_after (press_times release_times : list float) : bool :=
  forallb (fun pr => F64.leb (fst pr) (snd pr)) (combine press_times release_times).

Definition nonnegative (x : float) : bool := F64.leb F64.zero x.

Definition is_nan (x : float) : bool :=
  match x with
  | S754_nan => true
  | _ => false
  end.

Definition is_negative_zero (x : float) : bool :=
  match x with
  | S754_zero true => true
  | _ => false
  end.

(** Python's [==] on two lists of floats. *)
Fixpoint list_eqb (a b : list float) : bool :=
  match a, b with
  | [], [] => true
  | x :: a', y :: b' => F64.eqb x y && list_eqb a' b'
  | _, _ => false
  end.

(** ** Concrete attempts and worlds used as examples *)

(** The average the matcher computes for [base_profile] against
    [impostor_base]: 8725519568956366 / 2^58, about 0.0303. *)
Definition impostor_score : float := S754_finite false 8725519568956366 (-58).

(** A steady typist: a key every 0.12 s, each held for 0.08 s. *)
Definition steady_attempt : sample :=
  Sample "secret"
    [F64.lit 0 0; F64.lit 12 2; F64.lit 24 2; F64.lit 36 2; F64.lit 48 2; F64.lit 60 2]
    [F64.lit 8 2; F64.lit 20 2; F64.lit 32 2; F64.lit 44 2; F64.lit 56 2; F64.lit 68 2].


(** Both sequences in order, but the releases are stamped before the
    presses. *)
Definition early_release_attempt : sample :=
  Sample "secret"
    [F64.lit 10 0; F64.lit 11 0; F64.lit 12 0; F64.lit 13 0; F64.lit 14 0; F64.lit 15 0]
    [F64.lit 1 0; F64.lit 2 0; F64.lit 3 0; F64.lit 4 0; F64.lit 5 0; F64.lit 6 0].



(** ** Demo utilities *)

(** Python's [max(0.0, x)]: [x] when [x > 0.0], and [0.0] otherwise, also
    for a NaN. *)
Definition max_zero (x : float) : float := if SFltb F64.zero x then x else F64.zero.

(** The comprehension of [jittered_sample_from_profile], line 208.  [gauss n
    sigma] is what the [n]-th call of [random.gauss] in the run returns, a
    call with deviation [sigma]; [calls] counts the calls made so far. *)
Fixpoint jitter_loop (gauss : nat -> float -> float) (jitter : float) (calls : nat)
    (base_features : list float) : list float :=
  match base_features with
  | [] => []
  | v :: rest =>
      max_zero (F64.add v (gauss calls jitter)) :: jitter_loop gauss jitter (S calls) rest
  end.

(** [jittered_sample_from_profile], lines 207-208: the sample and the number
    of calls of [random.gauss] after it. *)
Definition jittered_sample_from_profile (gauss : nat -> float -> float) (calls : nat)
    (base_features : list float) (jitter : float) : list float * nat :=
  (jitter_loop gauss jitter calls base_features, calls + length base_features).



(** ** Further predicates and examples *)

(** A float that is an infinity or a NaN. *)
Definition nonfinite (x : float) : Prop := F64.is_finite x = false.

(** What a run has added to the log. *)
Definition output_since (w w' : world) : list event := drop (length (log w)) (log w').


(** The five ways [interactive_test] can end. *)
Inductive test_run (name : string) (threshold : float) (w : world)
  : result unit -> world -> Prop :=
  | run_not_found :
      load_profile name (disk w) = None ->
      test_run name threshold w (Ok tt)
        (World (disk w) (keyboard w) (log w ++ [Print MsgProfileNotFound]))
  | run_no_input stored :
      load_profile name (disk w) = Some stored ->
      keyboard w = [] ->
      test_run name threshold w (Raise EOFError)
        (World (disk w) [] (log w ++ [Capture]))
  | run_try_again stored s rest :
      load_profile name (disk w) = Some stored ->
      keyboard w = s :: rest ->
      extract_features (typed s) (press s) (rel s) = None ->
      test_run name threshold w (Ok tt)
        (World (disk w) rest (log w ++ [Capture; Print MsgTryAgain]))
  | run_scored stored s rest features score :
      load_profile name (disk w) = Some stored ->
      keyboard w = s :: rest ->
      extract_features (typed s) (press s) (rel s) = Some features ->
      compare_features (Some stored) (Some features) = Ok score ->
      test_run name threshold w (Ok tt)
        (World (disk w) rest
           (log w ++ [Capture; Print (MsgScore score);
                      Print (if F64.leb score threshold then MsgGranted else MsgDenied)])).

(** A profile file holding JSON that is no object, and three good attempts. *)
Definition no_object_store : world :=
  World (Some (Document JOther)) [steady_attempt; steady_attempt; steady_attempt] [].



(** ** The recorders *)

(** How a call of a recorder ends: it returns, it raises, or it waits for a
    key that never comes. *)
Inductive outcome (A : Type) : Type :=
  | Returned (a : A)
  | Raised (e : exn)
  | Waiting.
Arguments Returned {A} a.
Arguments Raised {A} e.
Arguments Waiting {A}.

(** A key as pynput reports it: a [KeyCode] with its character, if it has
    one, or a member of the enumeration [keyboard.Key], by name. *)
Inductive key : Type :=
  | KeyCode (char : option Ascii.ascii)
  | Key (name : string).

Inductive key_event : Type :=
  | Press (k : key)
  | Release (k : key).

(** The module's globals of lines 33-36. *)
Record globals : Type := Globals {
  press_times : list float;
  release_times : list float;
  pressed_sequence : list (option string);
  recording : bool
}.

(** What a recorder talks to: the lines [input()] will read, the characters
    [msvcrt.getwch()] will return, the events pynput will deliver, the
    successive readings of [time.time()], what has been written to the
    terminal, and the module's globals.  Characters are Latin-1, one [ascii]
    each. *)
Record console : Type := Console {
  lines : list string;
  chars : list Ascii.ascii;
  events : list key_event;
  clock : nat -> float;
  ticks : nat;
  printed : list string;
  vars : globals
}.

Definition C (A : Type) : Type := console -> outcome A * console.

Definition c_ret {A : Type} (a : A) : C A := fun c => (Returned a, c).

Definition c_bind {A B : Type} (m : C A) (k : A -> C B) : C B :=
  fun c =>
    match m c with
    | (Returned a, c') => k a c'
    | (Raised e, c') => (Raised e, c')
    | (Waiting, c') => (Waiting, c')
    end.

#[global] Instance C_ret : MRet C := @c_ret.
#[global] Instance C_bind : MBind C := fun A B k m => c_bind m k.

(** [print(s)]. *)
Definition put (s : string) : C unit :=
  fun c => (Returned tt,
            Console (lines c) (chars c) (events c) (clock c) (ticks c) (printed c ++ [s]) (vars c)).

(** [input(prompt)]: EOFError when nothing is left to read. *)
Definition input (prompt : string) : C string :=
  fun c =>
    let c' := Console (lines c) (chars c) (events c) (clock c) (ticks c)
                (printed c ++ [prompt]) (vars c) in
    match lines c with
    | [] => (Raised EOFError, c')
    | l :: rest =>
        (Returned l,
         Console rest (chars c) (events c) (clock c) (ticks c) (printed c ++ [prompt]) (vars c))
    end.

(** [time.time()]. *)
Definition time_time : C float :=
  fun c => (Returned (clock c (ticks c)),
            Console (lines c) (chars c) (events c) (clock c) (S (ticks c)) (printed c) (vars c)).

(** [msvcrt.getwch()]: it waits when no key comes. *)
Definition getwch : C Ascii.ascii :=
  fun c =>
    match chars c with
    | [] => (Waiting, c)
    | ch :: rest =>
        (Returned ch,
         Console (lines c) rest (events c) (clock c) (ticks c) (printed c) (vars c))
    end.

(** The next event pynput delivers: the listener waits when none comes. *)
Definition next_event : C key_event :=
  fun c =>
    match events c with
    | [] => (Waiting, c)
    | ev :: rest =>
        (Returned ev,
         Console (lines c) (chars c) rest (clock c) (ticks c) (printed c) (vars c))
    end.

Definition raise {A : Type} (e : exn) : C A := fun c => (Raised e, c).

Definition get_console : C console := fun c => (Returned c, c).

Definition get_vars : C globals := fun c => (Returned (vars c), c).

Definition set_vars (g : globals) : C unit :=
  fun c => (Returned tt,
            Console (lines c) (chars c) (events c) (clock c) (ticks c) (printed c) g).

Definition dwell_estimate : float := F64.lit 8 2.

Definition carriage_return : Ascii.ascii := Ascii.ascii_of_nat 13.
Definition line_feed : Ascii.ascii := Ascii.ascii_of_nat 10.
Definition backspace : Ascii.ascii := Ascii.ascii_of_nat 8.

(** The loop of lines 113-131.  Every turn reads one character, so [fuel],
    one more than the characters there are, is never used up: the loop ends
    at Enter or waits in [getwch]. *)
Fixpoint getwch_loop (fuel : nat) (pressed_chars : list Ascii.ascii) (press_times_local : list float)
  : C (list Ascii.ascii * list float) :=
  match fuel with
  | 0 => fun c => (Waiting, c)
  | S fuel' =>
      ch ← getwch;
      now ← time_time;
      if Ascii.eqb ch carriage_return || Ascii.eqb ch line_feed
      then mret (pressed_chars, press_times_local)
      else if Ascii.eqb ch backspace
      then
        match pressed_chars with
        | [] => getwch_loop fuel' pressed_chars press_times_local
        | _ :: _ => getwch_loop fuel' (removelast pressed_chars) (removelast press_times_local)
        end
      else getwch_loop fuel' (pressed_chars ++ [ch]) (press_times_local ++ [now])
  end.

(** [s[0] if s else ''], line 146. *)
Definition first_char (s : string) : string :=
  match s with
  | String a _ => String a ""
  | EmptyString => ""
  end.

(** The loop of lines 143-149 over the characters of the password. *)
Fixpoint prompt_loop (expected : list Ascii.ascii) (prev : float)
    (pressed_chars : list string) (times : list float)
  : C (list string * list float) :=
  match expected with
  | [] => mret (pressed_chars, times)
  | expected_char :: expected' =>
      s ← input ("Type '" +:+ String expected_char "" +:+ "' then press Enter: ");
      now ← time_time;
      let ch := first_char s in
      prompt_loop expected' now (pressed_chars ++ [ch]) (times ++ [F64.sub now prev])
  end.

(** The loop of lines 156-159. *)
Fixpoint cumulate (times : list float) (cumulative : float)
    (press_times_local release_times_local : list float) : list float * list float :=
  match times with
  | [] => (press_times_local, release_times_local)
  | interval :: times' =>
      let cumulative := F64.add cumulative interval in
      cumulate times' cumulative (press_times_local ++ [cumulative])
        (release_times_local ++ [F64.add cumulative dwell_estimate])
  end.

(** [record_keystrokes_fallback], lines 91-161; [windows] stands for
    [MSVCRT_AVAILABLE and sys.platform.startswith("win")]. *)
Definition record_keystrokes_fallback (windows : bool) (prompt : string) : C sample :=
  put prompt;;
  put "FALLBACK MODE (terminal-friendly).";;
  put "You can type the whole password continuously when prompted, then press Enter to finish.";;
  put ("Password to enter: '" +:+ PASSWORD +:+ "'");;
  input "Press Enter to begin recording...";;
  if windows then
    put "Recording... (type the password and press Enter when done)";;
    c ← get_console;
    r ← getwch_loop (S (length (chars c))) [] [];
    let release_times_local := List.map (fun t => F64.add t dwell_estimate) (snd r) in
    mret (Sample (String.string_of_list_ascii (fst r)) (snd r) release_times_local)
  else
    put "msvcrt not available — using per-character Enter fallback.";;
    input "Press Enter to begin the per-character recording...";;
    prev ← time_time;
    r ← prompt_loop (String.list_ascii_of_string PASSWORD) prev [] [];
    base ← time_time;
    let pr := cumulate (snd r) base [] [] in
    mret (Sample (String.concat "" (fst r)) (fst pr) (snd pr)).

(** [on_press], lines 38-46: [None] for a [KeyCode] without character. *)
Definition key_text (k : key) : option string :=
  match k with
  | KeyCode (Some c) => Some (String c "")
  | KeyCode None => None
  | Key name => Some ("Key." +:+ name)
  end.

Definition on_press (k : key) : C unit :=
  g ← get_vars;
  if recording g then
    now ← time_time;
    set_vars (Globals (press_times g ++ [now]) (release_times g)
                (pressed_sequence g ++ [key_text k]) (recording g))
  else mret tt.

(** [key == keyboard.Key.enter]. *)
Definition is_enter_key (k : key) : bool :=
  match k with
  | Key name => String.eqb name "enter"
  | KeyCode _ => false
  end.

(** [on_release], lines 48-54: [false] stands for [return False], which
    stops the listener. *)
Definition on_release (k : key) : C bool :=
  g ← get_vars;
  if recording g then
    now ← time_time;
    set_vars (Globals (press_times g) (release_times g ++ [now])
                (pressed_sequence g) (recording g));;
    if is_enter_key k then mret false else mret true
  else mret true.

(** [keyboard.Listener] joined: every event goes to its callback until one
    returns [False]; with no event left the listener waits.  [fuel] is one more
    than the events there are and is never used up. *)
Fixpoint listen (fuel : nat) : C unit :=
  match fuel with
  | 0 => fun c => (Waiting, c)
  | S fuel' =>
      ev ← next_event;
      match ev return C unit with
      | Press k => on_press k;; listen fuel'
      | Release k => go ← on_release k; if (go : bool) then listen fuel' else mret tt
      end
  end.

(** The generator of line 72: [len(ch)] raises TypeError on [None]. *)
Fixpoint join_chars (pressed : list (option string)) : result string :=
  match pressed with
  | [] => Ok ""
  | None :: _ => Raise TypeError
  | Some ch :: rest =>
      match join_chars rest with
      | Ok s => Ok (if String.length ch =? 1 then ch +:+ s else s)
      | Raise e => Raise e
      end
  end.

(** [typed[:-1]] when [typed] ends with a carriage return or a line feed. *)
Definition strip_newline (typed : string) : string :=
  match rev (String.list_ascii_of_string typed) with
  | a :: rest =>
      if Ascii.eqb a carriage_return || Ascii.eqb a line_feed
      then String.string_of_list_ascii (rev rest)
      else typed
  | [] => typed
  end.

(** [record_keystrokes_pynput], lines 56-76. *)
Definition record_keystrokes_pynput (prompt : string) : C sample :=
  g ← get_vars;
  set_vars (Globals [] [] [] (recording g));;
  put prompt;;
  put ("Type the password then press Enter. Password must be exactly: '" +:+ PASSWORD +:+ "'");;
  input "Press Enter to start recording in the background...";;
  g ← get_vars;
  set_vars (Globals (press_times g) (release_times g) (pressed_sequence g) true);;
  c ← get_console;
  listen (S (length (events c)));;
  g ← get_vars;
  set_vars (Globals (press_times g) (release_times g) (pressed_sequence g) false);;
  match join_chars (pressed_sequence g) return C sample with
  | Raise e => raise e
  | Ok typed => mret (Sample (strip_newline typed) (press_times g) (release_times g))
  end.

Definition is_enter (ch : Ascii.ascii) : bool :=
  Ascii.eqb ch carriage_return || Ascii.eqb ch line_feed.

Definition is_press (ev : key_event) : bool :=
  match ev with
  | Press _ => true
  | Release _ => false
  end.

Definition is_release (ev : key_event) : bool := negb (is_press ev).

Definition is_enter_release (ev : key_event) : bool :=
  match ev with
  | Release k => is_enter_key k
  | Press _ => false
  end.

(** The events of a list that satisfy [p], by their places counted from
    [n]. *)
Fixpoint stamps (p : key_event -> bool) (n : nat) (evs : list key_event) : list nat :=
  match evs with
  | [] => []
  | ev :: evs' => if p ev then n :: stamps p (S n) evs' else stamps p (S n) evs'
  end.

(** The keys pressed, and the characters among them. *)
Fixpoint pressed (evs : list key_event) : list key :=
  match evs with
  | [] => []
  | Press k :: evs' => k :: pressed evs'
  | Release _ :: evs' => pressed evs'
  end.

Fixpoint typed_chars (keys : list key) : list Ascii.ascii :=
  match keys with
  | [] => []
  | KeyCode (Some a) :: keys' => a :: typed_chars keys'
  | _ :: keys' => typed_chars keys'
  end.

(** Every key pressed and released before the next, then Enter. *)
Definition key_by_key (text : list Ascii.ascii) : list key_event :=
  flat_map (fun a => [Press (KeyCode (Some a)); Release (KeyCode (Some a))]) text
    ++ [Press (Key "enter"); Release (Key "enter")].

(** A line of input that begins with the character asked for. *)
Definition starts_with (line : string) (a : Ascii.ascii) : Prop :=
  exists tail, line = String a tail.

(** Example sessions: a clock that reads a tenth of a second more at every
    call, the password typed at once, and typed with a slip corrected by
    Backspace. *)
Definition tenths (n : nat) : float := F64.lit (Z.of_nat n) 1.

Definition typing_console : console :=
  Console [""] (String.list_ascii_of_string PASSWORD ++ [carriage_return]) [] tenths 0 []
    (Globals [] [] [] false).

Definition retyping_console : console :=
  Console [""]
    (String.list_ascii_of_string "sex" ++ backspace :: String.list_ascii_of_string "cret"
       ++ [carriage_return])
    [] tenths 0 [] (Globals [] [] [] false).

Definition skipping (n : nat) : float :=
  match n with
  | 0 => F64.zero
  | 1 => F64.lit 1 1
  | 2 => F64.lit 25 2
  | _ => F64.lit 5 1
  end.

Definition short_console : console :=
  Console [""] (String.list_ascii_of_string "ab" ++ [line_feed]) [] skipping 0 []
    (Globals [] [] [] false).

Definition prompted_console : console :=
  Console [""; ""; "s"; "exx"; "c"; "r"; "e"; "t"; "more"] [] [] tenths 0 []
    (Globals [] [] [] false).

Definition listening_console : console :=
  Console [""] [] (key_by_key (String.list_ascii_of_string PASSWORD)) tenths 0 []
    (Globals [F64.zero] [] [None] false).

(** The password typed fast: the last two letters are still held down when
    Enter is released. *)
Definition rollover_console : console :=
  Console [""] []
    (flat_map (fun a => [Press (KeyCode (Some a)); Release (KeyCode (Some a))])
       (String.list_ascii_of_string "secr")
     ++ [Press (KeyCode (Some (Ascii.ascii_of_nat 101)));
         Press (KeyCode (Some (Ascii.ascii_of_nat 116)));
         Press (Key "enter"); Release (Key "enter");
         Release (KeyCode (Some (Ascii.ascii_of_nat 101)));
         Release (KeyCode (Some (Ascii.ascii_of_nat 116)))])
    tenths 0 [] (Globals [] [] [] false).

Ltac run := unfold mbind, M_bind, bind, mret, M_ret, ret, print, emit, lift; cbn.

(** ** Facts about binary64 arithmetic *)

Section Binary64.

Local Open Scope Z_scope.

(** *** Digits, shifts and exact rounding *)

(** [digits2_pos p] is the number of binary digits of [p]. *)
Lemma digits2_pos_bounds p :
  2 ^ (Zpos (digits2_pos p) - 1) <= Zpos p < 2 ^ Zpos (digits2_pos p).
Proof.
  induction p as [p IH|p IH|]; cbn [digits2_pos].
  - rewrite Pos2Z.inj_succ.
    replace (Z.succ (Zpos (digits2_pos p)) - 1) with (Z.succ (Zpos (digits2_pos p) - 1)) by lia.
    rewrite !Z.pow_succ_r by lia. lia.
  - rewrite Pos2Z.inj_succ.
    replace (Z.succ (Zpos (digits2_pos p)) - 1) with (Z.succ (Zpos (digits2_pos p) - 1)) by lia.
    rewrite !Z.pow_succ_r by lia. lia.
  - cbn. lia.
Qed.

Lemma digits2_shift_nat k m :
  Zpos (digits2_pos (shift_nat k m)) = Zpos (digits2_pos m) + Z.of_nat k.
Proof.
  induction k as [|k IH]; [cbn; lia|].
  change (shift_nat (S k) m) with (xO (shift_nat k m)).
  cbn [digits2_pos]. rewrite Pos2Z.inj_succ, IH. lia.
Qed.

Lemma iter_pos_nat {A} (f : A -> A) p : forall x,
  SpecFloat.iter_pos f p x = Nat.iter (Pos.to_nat p) f x.
Proof.
  induction p as [p IH|p IH|]; intros x; cbn [SpecFloat.iter_pos].
  - rewrite !IH, Pos2Nat.inj_xI.
    replace (S (2 * Pos.to_nat p))%nat with (Pos.to_nat p + (Pos.to_nat p + 1))%nat by lia.
    rewrite !Nat.iter_add. reflexivity.
  - rewrite !IH, Pos2Nat.inj_xO.
    replace (2 * Pos.to_nat p)%nat with (Pos.to_nat p + Pos.to_nat p)%nat by lia.
    rewrite Nat.iter_add. reflexivity.
  - reflexivity.
Qed.

Lemma shr_1_shift_nat k m :
  Nat.iter k shr_1 (Build_shr_record (Zpos (shift_nat k m)) false false)
  = Build_shr_record (Zpos m) false false.
Proof.
  induction k as [|k IH]; [reflexivity|].
  rewrite Nat.iter_succ_r. change (shift_nat (S k) m) with (xO (shift_nat k m)).
  cbn [shr_1 orb]. exact IH.
Qed.

Lemma bounded_inv m e :
  bounded F64.prec F64.emax m e = true ->
  fexp F64.prec F64.emax (Zpos (digits2_pos m) + e) = e /\ e <= F64.emax - F64.prec.
Proof.
  unfold bounded, canonical_mantissa. intros [H1 H2]%andb_true_iff.
  apply Z.eqb_eq in H1. apply Z.leb_le in H2. split; assumption.
Qed.

(** Rounding a canonical mantissa that was shifted left by [k] bits, at the
    exponent lowered by [k], shifts it back and changes nothing. *)
Lemma round_exact s m e k :
  bounded F64.prec F64.emax m e = true ->
  binary_round_aux F64.prec F64.emax s (Zpos (shift_nat k m)) (e - Z.of_nat k) loc_Exact
  = S754_finite s m e.
Proof.
  intros Hb. destruct (bounded_inv m e Hb) as [Hc He].
  unfold binary_round_aux, shr_fexp. cbn [Zdigits2 shr_record_of_loc].
  rewrite digits2_shift_nat.
  replace (Zpos (digits2_pos m) + Z.of_nat k + (e - Z.of_nat k))
    with (Zpos (digits2_pos m) + e) by lia.
  rewrite Hc. replace (e - (e - Z.of_nat k)) with (Z.of_nat k) by lia.
  assert (Hshr : shr (Build_shr_record (Zpos (shift_nat k m)) false false) (e - Z.of_nat k) (Z.of_nat k)
                 = (Build_shr_record (Zpos m) false false, e)).
  { destruct k as [|k].
    - cbn [Z.of_nat shr]. rewrite Z.sub_0_r. reflexivity.
    - unfold shr. change (Z.of_nat (S k)) with (Zpos (Pos.of_succ_nat k)).
      cbv beta iota. rewrite iter_pos_nat, SuccNat2Pos.id_succ, shr_1_shift_nat. f_equal. lia. }
  rewrite Hshr. cbn [shr_m loc_of_shr_record round_nearest_even Zdigits2 shr_record_of_loc].
  rewrite Hc, Z.sub_diag. cbn [shr shr_m].
  apply Z.leb_le in He. rewrite He. reflexivity.
Qed.

Lemma div_eucl_exact q d : 0 < d -> Z.div_eucl (q * d) d = (q, 0).
Proof.
  intros Hd. generalize (Z.div_mul q d ltac:(lia)) (Z.mod_mul q d ltac:(lia)).
  unfold Z.div, Z.modulo. destruct (Z.div_eucl (q * d) d) as [a b]. cbn.
  intros -> ->. reflexivity.
Qed.

Lemma new_location_exact d : new_location d 0 = loc_Exact.
Proof. unfold new_location. destruct (Z.even d); reflexivity. Qed.

(** When [N / d] is the value [m * 2^e] of a canonical float, the division
    core returns the mantissa [m], shifted left by some [k] bits at the
    exponent [e - k], and no remainder. *)
Lemma div_core_exact m e N d :
  bounded F64.prec F64.emax m e = true ->
  Zpos N * 2 ^ Z.max (- e) 0 = Zpos m * 2 ^ Z.max e 0 * Zpos d ->
  exists k : nat,
    SFdiv_core_binary F64.prec F64.emax (Zpos N) 0 (Zpos d) 0
    = (Zpos (shift_nat k m), e - Z.of_nat k, loc_Exact).
Proof.
  intros Hb Heq. destruct (bounded_inv m e Hb) as [Hc He].
  set (a := Z.max (- e) 0) in *. set (b := Z.max e 0) in *.
  assert (Hab : e = b - a) by lia.
  assert (Ha : 0 <= a) by lia. assert (Hb0 : 0 <= b) by lia.
  pose proof (digits2_pos_bounds N) as [HN1 HN2].
  pose proof (digits2_pos_bounds m) as [Hm1 Hm2].
  pose proof (digits2_pos_bounds d) as [Hd1 Hd2].
  set (dN := Zpos (digits2_pos N)) in *.
  set (dm := Zpos (digits2_pos m)) in *.
  set (dd := Zpos (digits2_pos d)) in *.
  assert (Hdig : dN - dd <= dm + e).
  { assert (H1 : 2 ^ (dN - 1 + a) <= Zpos N * 2 ^ a).
    { rewrite Z.pow_add_r by lia. apply Z.mul_le_mono_nonneg_r; [apply Z.pow_nonneg; lia | exact HN1]. }
    assert (H2 : Zpos m * 2 ^ b * Zpos d < 2 ^ (dm + b + dd)).
    { rewrite !Z.pow_add_r by lia.
      assert (0 < 2 ^ b) by (apply Z.pow_pos_nonneg; lia).
      apply Z.mul_lt_mono_nonneg; [nia | | lia | lia].
      apply Z.mul_lt_mono_pos_r; lia. }
    assert (H3 : 2 ^ (dN - 1 + a) < 2 ^ (dm + b + dd)) by lia.
    apply Z.pow_lt_mono_r_iff in H3; lia. }
  unfold SFdiv_core_binary. cbn [Zdigits2]. fold dN dd.
  set (E' := Z.min (fexp F64.prec F64.emax (dN + 0 - (dd + 0))) (0 - 0)).
  assert (HE : E' <= e /\ E' <= 0).
  { subst E'. unfold fexp in *. lia. }
  destruct HE as [HE1 HE2].
  exists (Z.to_nat (e - E')).
  rewrite Z2Nat.id by lia.
  assert (Hm' : match 0 - 0 - E' with
                | Z0 => Zpos N
                | Zpos _ => Z.shiftl (Zpos N) (0 - 0 - E')
                | Zneg _ => 0
                end = Zpos (shift_nat (Z.to_nat (e - E')) m) * Zpos d).
  { assert (Hs : match 0 - 0 - E' with
                | Z0 => Zpos N
                | Zpos _ => Z.shiftl (Zpos N) (0 - 0 - E')
                | Zneg _ => 0
                end = Zpos N * 2 ^ (- E')).
    { destruct (0 - 0 - E') eqn:Es; [ | | lia].
      - replace (- E') with 0 by lia. lia.
      - rewrite Z.shiftl_mul_pow2 by lia. f_equal. f_equal. lia. }
    rewrite Hs, shift_nat_correct, Zpower_nat_Z, Z2Nat.id by lia.
    replace (- E') with (a + (- E' - a)) by lia.
    replace (e - E') with (b + (- E' - a)) by lia.
    rewrite !Z.pow_add_r by lia. 
    transitivity (Zpos N * 2 ^ a * 2 ^ (- E' - a)); [ring|].
    rewrite Heq. ring. }
  rewrite Hm', div_eucl_exact by lia.
  rewrite new_location_exact. f_equal. f_equal. lia.
Qed.

(** A ratio whose value is a float rounds to that float. *)
Lemma of_ratio_exact s m e n d :
  bounded F64.prec F64.emax m e = true ->
  (n # d == F64.to_Q (S754_finite s m e))%Q ->
  F64.of_ratio n d = S754_finite s m e.
Proof.
  intros Hb Hq.
  assert (Hint : n * 2 ^ Z.max (- e) 0 = cond_Zopp s (Zpos m) * 2 ^ Z.max e 0 * Zpos d).
  { unfold Qeq, F64.to_Q in Hq. destruct e as [|p|p]; cbn [Qnum Qden inject_Z] in Hq.
    - change (Z.max (- 0) 0) with 0. change (Z.max 0 0) with 0.
      rewrite Z.pow_0_r in *. lia.
    - replace (Z.max (- Zpos p) 0) with 0 by lia. replace (Z.max (Zpos p) 0) with (Zpos p) by lia.
      rewrite Z.pow_0_r. lia.
    - replace (Z.max (- Zneg p) 0) with (Zpos p) by lia. replace (Z.max (Zneg p) 0) with 0 by lia.
      rewrite Pos2Z.inj_pow in Hq. rewrite Z.pow_0_r. lia. }
  assert (H2a : 0 < 2 ^ Z.max (- e) 0) by (apply Z.pow_pos_nonneg; lia).
  assert (H2b : 0 < 2 ^ Z.max e 0) by (apply Z.pow_pos_nonneg; lia).
  unfold F64.of_ratio.
  destruct n as [|N|N]; destruct s; cbn [cond_Zopp] in Hint; try nia.
  - destruct (div_core_exact m e N d Hb) as [k Hk]; [lia|].
    change (Z.abs (Zpos N)) with (Zpos N). rewrite Hk. apply round_exact, Hb.
  - destruct (div_core_exact m e N d Hb) as [k Hk]; [lia|].
    change (Z.abs (Zneg N)) with (Zpos N). rewrite Hk. apply round_exact, Hb.
Qed.

Lemma of_Q_exact x q :
  F64.real x = true -> (q == F64.to_Q x)%Q -> F64.of_Q q = F64.unsigned_zero x.
Proof.
  unfold F64.real, F64.valid. intros [Hv Hf]%andb_true_iff Hq.
  destruct q as [n d]. unfold F64.of_Q. cbn [Qnum Qden].
  destruct x as [s|s| |s m e]; try discriminate.
  - cbn in Hq. unfold Qeq in Hq. cbn in Hq. assert (n = 0) by lia. subst n. reflexivity.
  - apply of_ratio_exact; assumption.
Qed.

(** *** The mean of identical data *)

Lemma fold_Qplus_replicate n q : forall acc,
  (fold_left Qplus (replicate n q) acc == acc + inject_Z (Z.of_nat n) * q)%Q.
Proof.
  induction n as [|n IH]; intros acc.
  - cbn. ring.
  - cbn [replicate fold_left]. rewrite IH, Nat2Z.inj_succ. unfold Z.succ.
    rewrite inject_Z_plus. ring.
Qed.

Lemma fold_add_replicate n x :
  F64.is_finite x = false -> fold_left F64.add (replicate n x) x = x.
Proof.
  intros Hx. induction n as [|n IH]; [reflexivity|].
  cbn [replicate fold_left].
  replace (F64.add x x) with x; [exact IH|].
  destruct x as [s|s| |s m e]; try discriminate; [destruct s|]; reflexivity.
Qed.

Lemma filter_replicate {A} (P : A -> bool) n x :
  List.filter P (replicate n x) = if P x then replicate n x else [].
Proof.
  induction n as [|n IH]; cbn [replicate List.filter]; [destruct (P x); reflexivity|].
  rewrite IH. destruct (P x); reflexivity.
Qed.

(** [statistics.mean] of [n+1] copies of a float is that float, [-0.0]
    becoming [0.0]. *)
Lemma mean_replicate n x :
  F64.valid x = true -> mean (replicate (S n) x) = Ok (F64.unsigned_zero x).
Proof.
  intros Hv. unfold mean. change (replicate (S n) x) with (x :: replicate n x) at 1.
  rewrite filter_replicate.
  destruct (F64.is_finite x) eqn:Hf; cbn [negb].
  - f_equal. apply of_Q_exact.
    + unfold F64.real. rewrite Hv, Hf. reflexivity.
    + rewrite Qred_correct.
      change (List.map F64.to_Q (replicate (S n) x)) with (F64.to_Q <$> replicate (S n) x).
      rewrite fmap_replicate, fold_Qplus_replicate, length_replicate.
      field. rewrite Nat2Z.inj_succ. unfold Z.succ. 
      intros H. apply (Qeq_bool_neq (inject_Z (Z.of_nat n + 1)) 0); [|exact H].
      unfold Qeq_bool. cbn. apply Z.eqb_neq. lia.
  - change (replicate (S n) x) with (x :: replicate n x). f_equal.
    rewrite fold_add_replicate by exact Hf.
    destruct x; try discriminate; reflexivity.
Qed.
(** *** The sign of a difference *)

(** Mantissas stay non-negative under shifting and rounding. *)
Lemma shr_1_nonneg r : 0 <= shr_m r -> 0 <= shr_m (shr_1 r).
Proof. destruct r as [[|[p|p|]|p] b s]; cbn; lia. Qed.

Lemma shr_nonneg r e n : 0 <= shr_m r -> 0 <= shr_m (fst (shr r e n)).
Proof.
  intros H. destruct n as [|p|p]; cbn [shr fst]; try exact H.
  rewrite iter_pos_nat. induction (Pos.to_nat p) as [|k IH]; [exact H|].
  cbn [Nat.iter]. apply shr_1_nonneg, IH.
Qed.

Lemma shr_fexp_nonneg m e l :
  0 <= m -> 0 <= shr_m (fst (shr_fexp F64.prec F64.emax m e l)).
Proof.
  intros H. unfold shr_fexp. apply shr_nonneg.
  destruct l as [|[ | | ]]; exact H.
Qed.

Lemma round_nearest_even_nonneg m l : 0 <= m -> 0 <= round_nearest_even m l.
Proof.
  intros H. destruct l as [|[ | | ]]; cbn [round_nearest_even]; try lia.
  destruct (Z.even m); lia.
Qed.

Lemma binary_round_aux_signed s m e l :
  0 <= m -> F64.signed s (binary_round_aux F64.prec F64.emax s m e l).
Proof.
  intros H. unfold binary_round_aux.
  pose proof (shr_fexp_nonneg m e l H) as H1.
  destruct (shr_fexp F64.prec F64.emax m e l) as [r1 e1]. cbn [fst] in H1.
  pose proof (round_nearest_even_nonneg (shr_m r1) (loc_of_shr_record r1) H1) as H2.
  pose proof (shr_fexp_nonneg _ e1 loc_Exact H2) as H3.
  destruct (shr_fexp F64.prec F64.emax _ e1 loc_Exact) as [r2 e2]. cbn [fst] in H3.
  destruct (shr_m r2) as [|p|p]; [left; reflexivity | | lia].
  destruct (e2 <=? F64.emax - F64.prec); right; [right; eauto | left; reflexivity].
Qed.

Lemma binary_normalize_signed m e :
  0 <= m -> F64.signed false (binary_normalize F64.prec F64.emax m e false).
Proof.
  intros H. destruct m as [|p|p]; [left; reflexivity | | lia].
  cbn [binary_normalize]. unfold binary_round.
  destruct (shl_align p e _) as [mz ez]. apply binary_round_aux_signed. lia.
Qed.

Lemma signed_nonneg x : F64.signed false x -> F64.leb F64.zero x = true.
Proof. intros [->|[->|(m & e & ->)]]; reflexivity. Qed.

(** Alignment of a mantissa to a smaller exponent. *)
Lemma shl_align_correct m e e' :
  e' <= e -> Zpos (fst (shl_align m e e')) = Zpos m * 2 ^ (e - e').
Proof.
  intros H. unfold shl_align. destruct (e' - e) as [|d|d] eqn:E.
  - replace (e - e') with 0 by lia. cbn [fst]. lia.
  - lia.
  - cbn [fst]. replace (e - e') with (Zpos d) by lia.
    change (Pos.iter xO m d) with (shift_pos d m).
    rewrite shift_pos_correct. change (Zpower_pos 2 d) with (2 ^ Zpos d). ring.
Qed.

(** Of two canonical floats the one with the larger exponent is larger. *)
Lemma canonical_exponent_lt m1 e1 m2 e2 :
  bounded F64.prec F64.emax m1 e1 = true ->
  bounded F64.prec F64.emax m2 e2 = true ->
  e1 < e2 ->
  Zpos m1 < Zpos m2 * 2 ^ (e2 - e1).
Proof.
  intros [H1 _]%bounded_inv [H2 _]%bounded_inv Hlt.
  pose proof (digits2_pos_bounds m1) as [_ Hm1].
  pose proof (digits2_pos_bounds m2) as [Hm2 _].
  unfold fexp, emin, F64.prec, F64.emax in *.
  set (d1 := Zpos (digits2_pos m1)) in *. set (d2 := Zpos (digits2_pos m2)) in *.
  assert (Hd2 : d2 = 53) by lia. assert (Hd1 : d1 <= 53) by lia.
  assert (Hp1 : 2 ^ d1 <= 2 ^ 53) by (apply Z.pow_le_mono_r; lia).
  rewrite Hd2 in Hm2.
  assert (Hp2 : 2 ^ 1 <= 2 ^ (e2 - e1)) by (apply Z.pow_le_mono_r; lia).
  change (2 ^ 1) with 2 in Hp2. change (2 ^ (53 - 1)) with 4503599627370496 in Hm2.
  change (2 ^ 53) with 9007199254740992 in Hp1. nia.
Qed.

(** For real [x] and [y] with [y <= x], the float [x - y] is not negative. *)
Lemma sub_nonneg x y :
  F64.real x = true -> F64.real y = true ->
  F64.leb y x = true -> F64.leb F64.zero (F64.sub x y) = true.
Proof.
  unfold F64.real, F64.valid. intros [Hvx Hfx]%andb_true_iff [Hvy Hfy]%andb_true_iff Hle.
  destruct x as [sx|sx| |sx mx ex]; try discriminate;
  destruct y as [sy|sy| |sy my ey]; try discriminate.
  - destruct sx, sy; reflexivity.
  - destruct sy; [reflexivity | discriminate].
  - destruct sx; [discriminate | reflexivity].
  - cbn [valid_binary] in Hvx, Hvy.
    unfold F64.sub, SFsub. apply signed_nonneg, binary_normalize_signed.
    rewrite !shl_align_correct by lia.
    assert (Hpx : 0 < 2 ^ (ex - Z.min ex ey)) by (apply Z.pow_pos_nonneg; lia).
    assert (Hpy : 0 < 2 ^ (ey - Z.min ex ey)) by (apply Z.pow_pos_nonneg; lia).
    unfold F64.leb, SFleb, SFcompare in Hle.
    destruct sy, sx; cbn [cond_Zopp]; try discriminate; try nia.
    + (* both negative *)
      change (Pos.compare_cont Eq my mx) with (Pos.compare my mx) in Hle.
      destruct (Z.compare_spec ey ex) as [He|He|He]; try discriminate.
      * subst ey. rewrite Z.min_id, Z.sub_diag.
        destruct (Pos.compare_spec my mx) as [Hm|Hm|Hm]; try discriminate; lia.
      * pose proof (canonical_exponent_lt mx ex my ey Hvx Hvy He) as Hc.
        rewrite Z.min_l, Z.sub_diag by lia. lia.
    + (* both positive *)
      change (Pos.compare_cont Eq my mx) with (Pos.compare my mx) in Hle.
      destruct (Z.compare_spec ey ex) as [He|He|He]; try discriminate.
      * subst ey. rewrite Z.min_id, Z.sub_diag.
        destruct (Pos.compare_spec my mx) as [Hm|Hm|Hm]; try discriminate; lia.
      * pose proof (canonical_exponent_lt my ey mx ex Hvy Hvx He) as Hc.
        rewrite Z.min_r, Z.sub_diag by lia. lia.
Qed.

End Binary64.

(** ** Lists built by comprehension *)

Lemma lookup_map_seq {A} (f : nat -> A) a n i :
  i < n -> List.map f (seq a n) !! i = Some (f (a + i)).
Proof.
  intros Hi. change (List.map f (seq a n)) with (f <$> seq a n).
  rewrite list_lookup_fmap, lookup_seq_lt by done. reflexivity.
Qed.

Lemma nth_lookup_lt {A} (l : list A) i d : i < length l -> l !! i = Some (nth i l d).
Proof.
  intros Hi. destruct (lookup_lt_is_Some_2 l i Hi) as [x Hx].
  rewrite nth_lookup, Hx. reflexivity.
Qed.

(** ** The feature extractor *)

Lemma extract_features_None typed p r :
  extract_features typed p r = None <->
  typed <> PASSWORD \/ length p < String.length PASSWORD \/ length r < String.length PASSWORD.
Proof.
  unfold extract_features.
  generalize (String.length PASSWORD) as n. intros n.
  destruct (String.eqb_spec typed PASSWORD) as [He|He]; cbn [negb].
  - destruct (Nat.ltb_spec (length p) n) as [Hp|Hp]; cbn [orb].
    + split; [intros _; right; left; exact Hp | reflexivity].
    + destruct (Nat.ltb_spec (length r) n) as [Hr|Hr].
      * split; [intros _; right; right; exact Hr | reflexivity].
      * split; [done|]. intros [H|[H|H]]; [done | lia | lia].
  - split; [intros _; left; exact He | reflexivity].
Qed.

Lemma extract_features_Some typed p r v :
  extract_features typed p r = Some v ->
  length v = 2 * String.length PASSWORD - 1 /\
  (forall i, i < String.length PASSWORD ->
     exists ri pi, r !! i = Some ri /\ p !! i = Some pi /\ v !! i = Some (F64.sub ri pi)) /\
  (forall i, 1 <= i < String.length PASSWORD ->
     exists pi pj, p !! i = Some pi /\ p !! (i - 1) = Some pj /\
                   v !! (String.length PASSWORD + i - 1) = Some (F64.sub pi pj)).
Proof.
  unfold extract_features.
  destruct (negb (String.eqb typed PASSWORD)); [done|].
  generalize (String.length PASSWORD) as n. intros n.
  destruct (Nat.ltb_spec (length p) n) as [Hp|Hp]; [done|].
  destruct (Nat.ltb_spec (length r) n) as [Hr|Hr]; [done|].
  cbn [orb]. intros [= <-]. split; [|split].
  - rewrite length_app, !length_map, !length_seq. lia.
  - intros i Hi. exists (nth i r F64.zero), (nth i p F64.zero).
    split; [apply nth_lookup_lt; lia|]. split; [apply nth_lookup_lt; lia|].
    rewrite lookup_app_l by (rewrite length_map, length_seq; lia).
    rewrite lookup_map_seq by done. reflexivity.
  - intros i Hi. exists (nth i p F64.zero), (nth (i - 1) p F64.zero).
    split; [apply nth_lookup_lt; lia|]. split; [apply nth_lookup_lt; lia|].
    rewrite lookup_app_r by (rewrite length_map, length_seq; lia).
    rewrite length_map, length_seq.
    rewrite lookup_map_seq by lia.
    replace (1 + (n + i - 1 - n)) with i by lia. reflexivity.
Qed.

Lemma extract_features_take typed p r :
  extract_features typed (take (String.length PASSWORD) p) (take (String.length PASSWORD) r)
  = extract_features typed p r.
Proof.
  unfold extract_features.
  destruct (negb (String.eqb typed PASSWORD)); [done|].
  generalize (String.length PASSWORD) as n. intros n.
  rewrite !length_take.
  destruct (Nat.ltb_spec (length p) n) as [Hp|Hp].
  - rewrite Nat.min_r by lia. destruct (Nat.ltb_spec (length p) n); [done | lia].
  - destruct (Nat.ltb_spec (length r) n) as [Hr|Hr].
    + rewrite (Nat.min_r n (length r)) by lia.
      destruct (Nat.ltb_spec (length r) n); [|lia]. by rewrite orb_true_r.
    + rewrite !Nat.min_l by lia. rewrite Nat.ltb_irrefl. cbn [orb].
      f_equal. f_equal.
      * apply map_ext_in. intros i Hi%in_seq.
        rewrite !nth_lookup, !lookup_take_lt by lia. done.
      * apply map_ext_in. intros i Hi%in_seq.
        rewrite !nth_lookup, !lookup_take_lt by lia. done.
Qed.

(** C2.  [extract_features] returns [None] exactly when the typed text is not
    the password or one of the two timestamp lists has fewer than [k] entries,
    [k] the length of the password; otherwise it returns a vector of [2k-1]
    entries, the first [k] being [release_times[i] - press_times[i]] and the
    other [k-1] being [press_times[i] - press_times[i-1]]; entries of the
    lists past the first [k] do not matter. *)
Theorem extract_features_spec (typed : string) (press_times release_times : list float) :
  let k := String.length PASSWORD in
  (extract_features typed press_times release_times = None <->
     typed <> PASSWORD \/ length press_times < k \/ length release_times < k) /\
  (forall v, extract_features typed press_times release_times = Some v ->
     length v = 2 * k - 1 /\
     (forall i, i < k ->
        exists ri pi, release_times !! i = Some ri /\ press_times !! i = Some pi /\
                      v !! i = Some (F64.sub ri pi)) /\
     (forall i, 1 <= i < k ->
        exists pi pj, press_times !! i = Some pi /\ press_times !! (i - 1) = Some pj /\
                      v !! (k + i - 1) = Some (F64.sub pi pj))) /\
  extract_features typed (take k press_times) (take k release_times)
    = extract_features typed press_times release_times.
Proof.
  intros k. split; [|split].
  - apply extract_features_None.
  - intros v Hv. apply (extract_features_Some _ _ _ _ Hv).
  - apply extract_features_take.
Qed.

(** *** Non-negative features *)

Lemma nondecreasing_lookup l : nondecreasing l = true ->
  forall i a b, l !! i = Some a -> l !! S i = Some b -> F64.leb a b = true.
Proof.
  induction l as [|x l IH]; intros H i a b Ha Hb; [discriminate|].
  destruct l as [|y l]; [destruct i; discriminate|].
  cbn [nondecreasing] in H. apply andb_true_iff in H as [Hxy Hl].
  destruct i as [|i].
  - cbn in Ha, Hb. congruence.
  - exact (IH Hl i a b Ha Hb).
Qed.

Lemma released_after_lookup p : forall r, released_after p r = true ->
  forall i pi ri, p !! i = Some pi -> r !! i = Some ri -> F64.leb pi ri = true.
Proof.
  unfold released_after.
  induction p as [|x p IH]; intros r H i pi ri Hp Hr; [discriminate|].
  destruct r as [|y r]; [discriminate|].
  cbn [combine forallb fst snd] in H. apply andb_true_iff in H as [Hxy Hl].
  destruct i as [|i].
  - cbn in Hp, Hr. congruence.
  - exact (IH r Hl i pi ri Hp Hr).
Qed.

Lemma forallb_lookup {A} (P : A -> bool) (l : list A) i x :
  forallb P l = true -> l !! i = Some x -> P x = true.
Proof.
  intros H Hx. rewrite forallb_forall in H. apply H.
  apply list_elem_of_In. eapply list_elem_of_lookup_2. exact Hx.
Qed.

(** C5, as amended.  When the timestamps of an attempt are finite floats,
    both sequences are non-decreasing and no key is released before it is
    pressed, every entry [x] of the vector that [extract_features] returns
    has [0.0 <= x]: it is not negative and it is no NaN. *)
Theorem features_nonnegative (typed : string) (press_times release_times v : list float) :
  forallb F64.real press_times = true ->
  forallb F64.real release_times = true ->
  nondecreasing press_times = true ->
  nondecreasing release_times = true ->
  released_after press_times release_times = true ->
  extract_features typed press_times release_times = Some v ->
  forallb nonnegative v = true.
Proof.
  intros Rp Rr Mp _ Hpr Hv.
  destruct (extract_features_Some _ _ _ _ Hv) as (Hlen & Hd & Hf).
  apply forallb_forall. intros x Hx%list_elem_of_In%list_elem_of_lookup_1.
  destruct Hx as [j Hj]. pose proof (lookup_lt_Some _ _ _ Hj) as Hlt.
  unfold nonnegative.
  destruct (decide (j < String.length PASSWORD)) as [Hjk|Hjk].
  - destruct (Hd j Hjk) as (ri & pi & Hri & Hpi & Hvj).
    rewrite Hvj in Hj. injection Hj as <-.
    apply sub_nonneg.
    + exact (forallb_lookup _ _ _ _ Rr Hri).
    + exact (forallb_lookup _ _ _ _ Rp Hpi).
    + exact (released_after_lookup _ _ Hpr j pi ri Hpi Hri).
  - destruct (Hf (j - String.length PASSWORD + 1) ltac:(lia)) as (pi & pj & Hpi & Hpj & Hvj).
    replace (String.length PASSWORD + (j - String.length PASSWORD + 1) - 1) with j in Hvj by lia.
    rewrite Hvj in Hj. injection Hj as <-.
    apply sub_nonneg.
    + exact (forallb_lookup _ _ _ _ Rp Hpi).
    + exact (forallb_lookup _ _ _ _ Rp Hpj).
    + apply (nondecreasing_lookup _ Mp (j - String.length PASSWORD + 1 - 1) pj pi Hpj).
      replace (S (j - String.length PASSWORD + 1 - 1)) with (j - String.length PASSWORD + 1) by lia.
      exact Hpi.
Qed.

Lemma features_nonnegative_witness :
  exists v,
    extract_features (typed steady_attempt) (press steady_attempt) (rel steady_attempt) = Some v /\
    forallb nonnegative v = true.
Proof.
  destruct (extract_features (typed steady_attempt) (press steady_attempt) (rel steady_attempt))
    as [v|] eqn:E; [|vm_compute in E; discriminate].
  exists v. split; [reflexivity|].
  apply (features_nonnegative (typed steady_attempt) (press steady_attempt) (rel steady_attempt) v).
  - vm_compute. reflexivity.
  - vm_compute. reflexivity.
  - vm_compute. reflexivity.
  - vm_compute. reflexivity.
  - vm_compute. reflexivity.
  - exact E.
Defined.

(** C5 as stated fails: in [early_release_attempt] each sequence is
    non-decreasing and extraction succeeds, yet the dwell entries are [-9.0]. *)
Lemma early_release_negative_dwell :
  forallb F64.real (press early_release_attempt) = true /\
  forallb F64.real (rel early_release_attempt) = true /\
  nondecreasing (press early_release_attempt) = true /\
  nondecreasing (rel early_release_attempt) = true /\
  exists v,
    extract_features (typed early_release_attempt) (press early_release_attempt)
      (rel early_release_attempt) = Some v /\
    v !! 0 = Some (S754_finite true 5066549580791808 (-49)) /\
    forallb nonnegative v = false.
Proof.
  repeat (split; [vm_compute; reflexivity|]).
  eexists. split; [vm_compute; reflexivity|]. split; vm_compute; reflexivity.
Qed.

(** ** The matcher *)




Lemma report_run stored features t w score :
  compare_features stored (Some features) = Ok score ->
  report stored features t w
  = (Ok tt, World (disk w) (keyboard w)
              (log w ++ [Print (MsgScore score);
                         Print (if F64.leb score t then MsgGranted else MsgDenied)])).
Proof.
  intros H. unfold report. run. rewrite H. cbn. unfold decision_of.
  destruct (F64.leb score t); cbn; rewrite <- app_assoc; reflexivity.
Qed.




(** *** The demo's impostor *)

(** C1, as amended.  For the reference profile and the candidate that is 1.3
    times it in every dimension, the absolute differences average
    8725519568956366 / 2^58, between 0.030 and 0.031 and so not above 0.10, and
    the verification step reports that score and grants access at the
    threshold 0.10. *)
Theorem impostor_accepted :
  impostor_base = List.map (fun v => F64.mul v (F64.lit 13 1)) base_profile /\
  compare_features (Some base_profile) (Some impostor_base) = Ok impostor_score /\
  F64.leb (F64.lit 30 3) impostor_score = true /\
  F64.leb impostor_score (F64.lit 31 3) = true /\
  F64.leb impostor_score (F64.lit 10 2) = true /\
  forall w,
    report (Some base_profile) impostor_base (F64.lit 10 2) w
    = (Ok tt, World (disk w) (keyboard w)
                (log w ++ [Print (MsgScore impostor_score); Print MsgGranted])).
Proof.
  assert (E : compare_features (Some base_profile) (Some impostor_base) = Ok impostor_score)
    by (vm_compute; reflexivity).
  split; [reflexivity|]. split; [exact E|].
  split; [vm_compute; reflexivity|]. split; [vm_compute; reflexivity|].
  assert (L : F64.leb impostor_score (F64.lit 10 2) = true) by (vm_compute; reflexivity).
  split; [exact L|].
  intros w. rewrite (report_run _ _ _ _ _ E), L. reflexivity.
Qed.

(** C1 as stated fails: the average is not above 0.10 and the decision is
    ACCEPT. *)
Lemma impostor_not_rejected :
  compare_features (Some base_profile) (Some impostor_base) = Ok impostor_score /\
  F64.leb impostor_score (F64.lit 10 2) = true /\
  decision_of impostor_score (F64.lit 10 2) = ACCEPT /\
  verdict [Print (MsgScore impostor_score); Print MsgGranted] = ACCEPT.
Proof. repeat split; vm_compute; reflexivity. Qed.

(** *** Self-distance and symmetry *)

Lemma sub_self x : F64.real x = true -> F64.sub x x = F64.zero.
Proof.
  unfold F64.real. intros [_ Hf]%andb_true_iff.
  destruct x as [[]|s| |s m e]; try discriminate; try reflexivity.
  unfold F64.sub, SFsub. rewrite Z.sub_diag. reflexivity.
Qed.

Lemma diffs_self (v : list float) :
  forallb F64.real v = true ->
  List.map (fun ab => F64.abs (F64.sub (fst ab) (snd ab))) (combine v v)
  = replicate (length v) F64.zero.
Proof.
  induction v as [|x v IH]; [reflexivity|].
  cbn [forallb combine List.map length replicate fst snd].
  intros [Hx Hv]%andb_true_iff. rewrite (IH Hv), (sub_self x Hx). reflexivity.
Qed.

(** X1.  A non-empty vector of real numbers is at distance [0.0] from itself,
    which is accepted at the threshold 0.10. *)
Theorem compare_features_self (v : list float) :
  v <> [] -> forallb F64.real v = true ->
  compare_features (Some v) (Some v) = Ok F64.zero /\
  decision_of F64.zero (F64.lit 10 2) = ACCEPT.
Proof.
  intros Hne Hv. split; [|reflexivity].
  unfold compare_features. rewrite Nat.eqb_refl. cbn [negb].
  rewrite (diffs_self v Hv). destruct v as [|x v]; [done|].
  cbn [length]. apply (mean_replicate (length v) F64.zero). reflexivity.
Qed.

Lemma compare_features_self_witness :
  compare_features (Some base_profile) (Some base_profile) = Ok F64.zero.
Proof.
  apply (compare_features_self base_profile); [discriminate | vm_compute; reflexivity].
Defined.

Lemma abs_binary_round s1 s2 m e :
  F64.abs (binary_round F64.prec F64.emax s1 m e)
  = F64.abs (binary_round F64.prec F64.emax s2 m e).
Proof.
  unfold binary_round, binary_round_aux.
  destruct (shl_align m e _) as [mz ez].
  destruct (shr_fexp F64.prec F64.emax (Zpos mz) ez loc_Exact) as [r1 e1].
  destruct (shr_fexp F64.prec F64.emax _ e1 loc_Exact) as [r2 e2].
  destruct (shr_m r2); [reflexivity | | reflexivity].
  destruct (Z.leb e2 _); reflexivity.
Qed.

Lemma abs_binary_normalize_opp m e :
  F64.abs (binary_normalize F64.prec F64.emax (Z.opp m) e false)
  = F64.abs (binary_normalize F64.prec F64.emax m e false).
Proof.
  destruct m as [|p|p]; [reflexivity | |]; cbn [Z.opp binary_normalize]; apply abs_binary_round.
Qed.

Lemma abs_sub_comm x y : F64.abs (F64.sub x y) = F64.abs (F64.sub y x).
Proof.
  destruct x as [sx|sx| |sx mx ex], y as [sy|sy| |sy my ey];
    try reflexivity; try (destruct sx, sy; reflexivity).
  unfold F64.sub, SFsub. rewrite (Z.min_comm ey ex).
  rewrite <- abs_binary_normalize_opp. f_equal. f_equal. lia.
Qed.

(** X2.  The score does not depend on the order of its two arguments. *)
Theorem compare_features_sym (f1 f2 : option (list float)) :
  compare_features f1 f2 = compare_features f2 f1.
Proof.
  destruct f1 as [a|], f2 as [b|]; try reflexivity.
  unfold compare_features. rewrite (Nat.eqb_sym (length b) (length a)).
  destruct (length a =? length b); [|reflexivity]. cbn [negb]. f_equal.
  revert b. induction a as [|x a IH]; intros [|y b]; try reflexivity.
  cbn [combine List.map fst snd]. rewrite (abs_sub_comm x y), (IH b). reflexivity.
Qed.

(** ** The aggregator *)

(** C7.  [average_samples] returns [None] for no samples and for samples two
    of which differ in length; nothing is averaged, cut or filled in. *)
Theorem average_samples_fails :
  average_samples [] = Ok None /\
  forall (samples : list (list float)) i j a b,
    samples !! i = Some a -> samples !! j = Some b -> length a <> length b ->
    average_samples samples = Ok None.
Proof.
  split; [reflexivity|].
  intros samples i j a b Ha Hb Hl.
  unfold average_samples. destruct samples as [|s0 rest] eqn:E; [done|].
  rewrite <- E in *.
  destruct (forallb _ samples) eqn:F; [|reflexivity].
  exfalso. rewrite forallb_forall in F.
  assert (Ha' := F a ltac:(apply list_elem_of_In; eapply list_elem_of_lookup_2; eauto)).
  assert (Hb' := F b ltac:(apply list_elem_of_In; eapply list_elem_of_lookup_2; eauto)).
  apply Nat.eqb_eq in Ha', Hb'. congruence.
Qed.

(** *** Averaging identical samples *)

Lemma rmap_Ok {A B} (f : A -> result B) (g : A -> B) l :
  Forall (fun x => f x = Ok (g x)) l -> rmap f l = Ok (List.map g l).
Proof.
  induction 1 as [|x l Hx _ IH]; [reflexivity|].
  cbn [rmap List.map]. rewrite Hx. cbn [rbind]. rewrite IH. reflexivity.
Qed.

Lemma map_nth_seq {A B} (f : A -> B) (l : list A) d :
  List.map (fun j => f (nth j l d)) (seq 0 (length l)) = List.map f l.
Proof.
  apply list_eq. intros i.
  change (List.map (fun j => f (nth j l d)) (seq 0 (length l)))
    with ((fun j => f (nth j l d)) <$> seq 0 (length l)).
  change (List.map f l) with (f <$> l).
  rewrite !list_lookup_fmap.
  destruct (decide (i < length l)) as [Hi|Hi].
  - rewrite lookup_seq_lt by done. cbn.
    destruct (lookup_lt_is_Some_2 l i Hi) as [x Hx].
    rewrite nth_lookup, Hx. reflexivity.
  - rewrite lookup_seq_ge by lia. rewrite lookup_ge_None_2 by lia. reflexivity.
Qed.

Lemma zip_star_replicate n (v : list float) :
  zip_star (replicate (S n) v)
  = List.map (fun j => replicate (S n) (nth j v F64.zero)) (seq 0 (length v)).
Proof.
  unfold zip_star. change (replicate (S n) v) with (v :: replicate n v) at 1.
  cbv beta iota.
  assert (Hw : fold_right Nat.min (length v) (List.map (@length float) (replicate n v)) = length v).
  { induction n as [|n IH]; [reflexivity|]. cbn [replicate List.map fold_right]. rewrite IH. lia. }
  rewrite Hw. apply map_ext. intros j.
  change (v :: replicate n v) with (replicate (S n) v).
  change (List.map (fun s => nth j s F64.zero) (replicate (S n) v))
    with ((fun s => nth j s F64.zero) <$> replicate (S n) v).
  rewrite fmap_replicate. reflexivity.
Qed.

Lemma average_samples_replicate (v : list float) n :
  Forall (fun x => F64.valid x = true) v ->
  average_samples (replicate (S n) v) = Ok (Some (List.map F64.unsigned_zero v)).
Proof.
  intros Hv. unfold average_samples.
  change (replicate (S n) v) with (v :: replicate n v) at 1. cbv beta iota.
  change (v :: replicate n v) with (replicate (S n) v).
  assert (Hall : forallb (fun s => length s =? length v) (replicate (S n) v) = true).
  { apply forallb_forall. intros s Hs%list_elem_of_In%elem_of_replicate.
    destruct Hs as [-> _]. apply Nat.eqb_refl. }
  rewrite Hall, zip_star_replicate.
  rewrite (rmap_Ok mean (fun col => F64.unsigned_zero (nth 0 col F64.zero))).
  - cbn [rbind]. rewrite List.map_map. cbn [replicate nth].
    rewrite (map_nth_seq F64.unsigned_zero v F64.zero). reflexivity.
  - apply Forall_forall. intros col Hc%list_elem_of_In%in_map_iff.
    destruct Hc as (j & <- & Hj%in_seq). cbn [replicate nth].
    apply mean_replicate.
    rewrite Forall_forall in Hv. apply Hv. apply list_elem_of_In, nth_In. lia.
Qed.

(** C8, as amended.  Averaging [N >= 1] copies of one vector [v] of Python floats gives
    [v] back: entry for entry the same float, except that [-0.0] comes back as
    [0.0]; the result is equal to [v] for Python's [==] whenever [v] holds no
    NaN, and identical to [v] whenever [v] holds no [-0.0]. *)
Theorem average_samples_identical (v : list float) (N : nat) :
  1 <= N ->
  forallb F64.valid v = true ->
  average_samples (replicate N v) = Ok (Some (List.map F64.unsigned_zero v)) /\
  (forallb (fun x => negb (is_nan x)) v = true ->
   list_eqb (List.map F64.unsigned_zero v) v = true) /\
  (forallb (fun x => negb (is_negative_zero x)) v = true ->
   List.map F64.unsigned_zero v = v).
Proof.
  intros HN Hv. destruct N as [|n]; [lia|]. split; [|split].
  - apply average_samples_replicate. apply Forall_forall.
    intros x Hx%list_elem_of_In. rewrite forallb_forall in Hv. exact (Hv x Hx).
  - clear. induction v as [|x v IH]; [reflexivity|].
    cbn [forallb List.map list_eqb]. intros [Hx Hr]%andb_true_iff.
    rewrite (IH Hr), andb_true_r.
    destruct x as [s|s| |s m e]; try discriminate.
    + reflexivity.
    + destruct s; reflexivity.
    + unfold F64.eqb, SFeqb, SFcompare. cbn [F64.unsigned_zero].
      rewrite Z.compare_refl.
      change (Pos.compare_cont Eq m m) with (Pos.compare m m).
      rewrite Pos.compare_refl. destruct s; reflexivity.
  - clear. induction v as [|x v IH]; [reflexivity|].
    cbn [forallb List.map]. intros [Hx Hr]%andb_true_iff.
    rewrite (IH Hr). f_equal.
    destruct x as [[]|s| |s m e]; try discriminate; reflexivity.
Qed.

Lemma average_samples_identical_witness :
  average_samples (replicate 3 base_profile) = Ok (Some (List.map F64.unsigned_zero base_profile))
  /\ List.map F64.unsigned_zero base_profile = base_profile.
Proof.
  destruct (average_samples_identical base_profile 3) as (H1 & _ & H3).
  - lia.
  - vm_compute. reflexivity.
  - split; [exact H1 | apply H3; vm_compute; reflexivity].
Defined.

(** C8 as stated fails: three copies of the vector [nan, -0.0] average to
    [nan, 0.0], which is not the vector given and is not equal to it for
    [==]; three copies of [-0.0] average to [0.0]. *)
Lemma average_samples_alters_zero :
  forallb F64.valid [S754_nan; S754_zero true] = true /\
  average_samples (replicate 3 [S754_nan; S754_zero true])
    = Ok (Some [S754_nan; S754_zero false]) /\
  list_eqb [S754_nan; S754_zero false] [S754_nan; S754_zero true] = false /\
  average_samples (replicate 3 [S754_zero true]) = Ok (Some [S754_zero false]) /\
  existsb is_negative_zero [S754_zero true] = true /\
  existsb is_negative_zero [S754_zero false] = false.
Proof. repeat split; vm_compute; reflexivity. Qed.

(** ** The profile store *)



(** Where the file opens for reading and for writing, the functions of [OS]
    are [load_profile] and [save_profile]. *)
Lemma OS_load_profile_opens name writable c :
  OS.load_profile name (Present true writable c) = Ok (load_profile name (Some c)).
Proof. destruct c as [|[d|]]; cbn; try reflexivity. destruct (d !! name); reflexivity. Qed.

Lemma OS_save_profile_opens name features c :
  OS.save_profile name features (Present true true c)
  = match save_profile name features (Some c) with
    | (Ok _, Some c') => (Ok tt, Present true true c')
    | (r, _) => (r, Present true true c)
    end.
Proof. destruct c as [|[d|]]; reflexivity. Qed.

(** C10.  Whatever the profile file holds, after [save_profile X v] a
    [load_profile Y] for another name [Y] returns what it returned before; on
    a file that holds a JSON object the save returns normally. *)
Theorem save_profile_frame (f : file) (X Y : string) (v : option (list float)) :
  X <> Y ->
  load_profile Y (snd (save_profile X v f)) = load_profile Y f /\
  (forall d, f = Some (Document (JObject d)) ->
     save_profile X v f = (Ok tt, Some (Document (JObject (<[X := v]> d))))).
Proof.
  intros H. split.
  - destruct f as [[|[d|]]|]; cbn.
    + rewrite lookup_insert_ne by done. rewrite lookup_empty. reflexivity.
    + rewrite lookup_insert_ne by done. reflexivity.
    + reflexivity.
    + rewrite lookup_insert_ne by done. rewrite lookup_empty. reflexivity.
  - intros d ->. reflexivity.
Qed.

Lemma save_profile_frame_witness :
  load_profile "bob"
    (snd (save_profile "alice" (Some impostor_base)
            (Some (Document (JObject {["bob" := Some base_profile]})))))
  = Some base_profile.
Proof.
  rewrite (proj1 (save_profile_frame (Some (Document (JObject {["bob" := Some base_profile]})))
                    "alice" "bob" (Some impostor_base) ltac:(discriminate))).
  cbn. rewrite lookup_singleton_eq. reflexivity.
Defined.



(** ** Enrollment *)











(** *** Successful enrollment *)

Lemma mean_nonempty x l : exists m, mean (x :: l) = Ok m.
Proof. unfold mean. destruct (List.filter _ (x :: l)); eauto. Qed.

Lemma rmap_mean_nonempty (cols : list (list float)) :
  Forall (fun c => c <> []) cols ->
  exists avg, rmap mean cols = Ok avg /\ length avg = length cols.
Proof.
  induction 1 as [|c cols Hc _ (avg & IH & Hlen)]; [exists []; split; reflexivity|].
  destruct c as [|x c]; [done|]. destruct (mean_nonempty x c) as [m Hm].
  exists (m :: avg). cbn [rmap]. rewrite Hm. cbn [rbind]. rewrite IH. cbn.
  split; [reflexivity | congruence].
Qed.

Lemma average_samples_equal_length (s0 : list float) (rest : list (list float)) :
  Forall (fun s => length s = length s0) rest ->
  exists avg, average_samples (s0 :: rest) = Ok (Some avg) /\ length avg = length s0.
Proof.
  intros Hall. unfold average_samples.
  assert (Hb : forallb (fun s => length s =? length s0) (s0 :: rest) = true).
  { cbn [forallb]. rewrite Nat.eqb_refl. cbn [andb]. apply forallb_forall.
    intros s Hs. apply Nat.eqb_eq. rewrite Forall_forall in Hall.
    apply Hall, list_elem_of_In, Hs. }
  rewrite Hb.
  assert (Hw : fold_right Nat.min (length s0) (List.map (@length float) rest) = length s0).
  { clear Hb. induction Hall as [|s rest Hs HF IH]; [reflexivity|].
    cbn [List.map fold_right]. rewrite IH. lia. }
  destruct (rmap_mean_nonempty (zip_star (s0 :: rest))) as (avg & Havg & Hlen).
  { unfold zip_star. apply Forall_forall. intros c Hc%list_elem_of_In%in_map_iff.
    destruct Hc as (j & <- & _). discriminate. }
  exists avg. rewrite Havg. split; [reflexivity|].
  rewrite Hlen. unfold zip_star. rewrite length_map, length_seq. exact Hw.
Qed.

Lemma register_loop_success fs : forall a acc ss w rest,
  Forall2 (fun s f => extract_features (typed s) (press s) (rel s) = Some f) ss fs ->
  keyboard w = ss ++ rest ->
  register_loop (seq a (length ss)) acc w
  = (Ok (Some (acc ++ fs)),
     World (disk w) rest (log w ++ loop_output a (length ss))).
Proof.
  induction fs as [|f fs IH]; intros a acc ss w rest HF Hk.
  - apply Forall2_nil_inv_r in HF. subst ss. destruct w as [d k l]. cbn in *. subst k.
    unfold loop_output. cbn. rewrite !app_nil_r. reflexivity.
  - apply Forall2_cons_inv_r in HF as (s & ss' & Hs & HF & ->).
    destruct w as [d k l]. cbn in Hk. subst k.
    cbn [length seq register_loop]. unfold record_keystrokes, next_attempt. run.
    rewrite Hs. run.
    erewrite (IH (S a) (acc ++ [f]) ss' _ rest HF); [|reflexivity].
    cbn. rewrite <- !app_assoc. reflexivity.
Qed.



(** ** Verification of an unknown name *)



(** ** The matcher: errors and sign of the score *)

(** mean raises only on no data *)
Lemma mean_Ok_iff (data : list float) :
  (exists m, mean data = Ok m) <-> data <> [].
Proof.
  split.
  - intros [m H] ->. discriminate.
  - destruct data as [|x l]; [done|]. intros _. apply mean_nonempty.
Qed.

Lemma diffs_length (a b : list float) :
  length (List.map (fun ab => F64.abs (F64.sub (fst ab) (snd ab))) (combine a b))
  = Nat.min (length a) (length b).
Proof. rewrite length_map. apply length_combine. Qed.

(** X5.  [compare_features] raises only when both arguments are empty
    vectors, and then StatisticsError, from [mean] of no data; on every other
    pair of arguments, a missing vector or vectors of unequal lengths
    included, it returns a score. *)
Theorem compare_features_raises (f1 f2 : option (list float)) :
  (compare_features f1 f2 = Raise StatisticsError <-> f1 = Some [] /\ f2 = Some []) /\
  (forall e, compare_features f1 f2 = Raise e -> e = StatisticsError) /\
  (f1 <> Some [] \/ f2 <> Some [] -> exists score, compare_features f1 f2 = Ok score).
Proof.
  assert (Hmain : (f1 = Some [] /\ f2 = Some [] /\ compare_features f1 f2 = Raise StatisticsError)
                  \/ ((f1 <> Some [] \/ f2 <> Some []) /\ exists score, compare_features f1 f2 = Ok score)).
  { destruct f1 as [a|], f2 as [b|];
      try (right; split; [(left + right); discriminate | eexists; reflexivity]).
    unfold compare_features.
    destruct (Nat.eqb_spec (length a) (length b)) as [E|E]; cbn [negb].
    - destruct a as [|x a], b as [|y b]; try discriminate.
      + left. auto.
      + right. split; [left; discriminate|]. cbn [combine List.map]. apply mean_nonempty.
    - right. split; [|eexists; reflexivity].
      destruct a; [right; intros [= ->]; apply E; reflexivity | left; discriminate]. }
  destruct Hmain as [(-> & -> & H)|(Hne & score & H)].
  - split; [tauto|]. split; [intros e; rewrite H; congruence|]. intros [?|?]; congruence.
  - split; [|split].
    + split; [rewrite H; discriminate | intros [-> ->]; destruct Hne; congruence].
    + intros e. rewrite H. discriminate.
    + intros _. eauto.
Qed.

Section MeanSign.
Local Open Scope Z_scope.

Lemma div_core_nonneg m1 e1 m2 e2 :
  0 <= m1 -> 0 < m2 ->
  0 <= fst (fst (SFdiv_core_binary F64.prec F64.emax m1 e1 m2 e2)).
Proof.
  intros H1 H2. unfold SFdiv_core_binary.
  set (s := e1 - e2 - _).
  set (m' := match s with Z0 => m1 | Zpos _ => Z.shiftl m1 s | Zneg _ => 0 end).
  assert (Hm' : 0 <= m').
  { subst m'. destruct s; [exact H1 | apply Z.shiftl_nonneg; exact H1 | lia]. }
  generalize (Z.div_pos m' m2 Hm' H2). unfold Z.div.
  destruct (Z.div_eucl m' m2) as [q r]. cbn. auto.
Qed.

Lemma of_ratio_signed n d : 0 <= n -> F64.signed false (F64.of_ratio n d).
Proof.
  intros H. unfold F64.of_ratio. destruct n as [|p|p]; [left; reflexivity | | lia].
  pose proof (div_core_nonneg (Z.abs (Zpos p)) 0 (Zpos d) 0 ltac:(lia) ltac:(lia)) as Hq.
  destruct (SFdiv_core_binary _ _ _ _ _ _) as [[q e] l]. cbn [fst] in Hq.
  change (Zpos p <? 0) with false. apply binary_round_aux_signed, Hq.
Qed.

Lemma to_Q_nonneg x : nonnegative x = true -> (0 <= F64.to_Q x)%Q.
Proof.
  destruct x as [s|s| |s m e]; try (intros _; apply Qle_refl).
  destruct s; [discriminate|]. intros _. unfold F64.to_Q, cond_Zopp.
  destruct e as [|p|p]; unfold Qle; cbn [Qnum Qden inject_Z]; lia.
Qed.

Lemma fold_Qplus_nonneg l : forall acc,
  (0 <= acc)%Q -> Forall (fun q => (0 <= q)%Q) l -> (0 <= fold_left Qplus l acc)%Q.
Proof.
  induction l as [|q l IH]; intros acc Ha Hl; [exact Ha|].
  apply Forall_cons in Hl as [Hq Hl]. cbn [fold_left]. apply IH; [|exact Hl].
  replace 0%Q with (0 + 0)%Q by reflexivity. apply Qplus_le_compat; assumption.
Qed.

Lemma of_Q_mean_signed (l : list float) :
  Forall (fun x => nonnegative x = true) l ->
  F64.signed false
    (F64.of_Q (Qred (fold_left Qplus (List.map F64.to_Q l) 0%Q / inject_Z (Z.of_nat (length l))))).
Proof.
  intros Hl. unfold F64.of_Q. apply of_ratio_signed.
  set (q := (fold_left Qplus _ _ / _)%Q).
  assert (Hq : (0 <= q)%Q).
  { subst q. unfold Qdiv. apply Qmult_le_0_compat.
    - apply fold_Qplus_nonneg; [apply Qle_refl|].
      apply Forall_forall. intros x Hx%list_elem_of_In%in_map_iff.
      destruct Hx as (y & <- & Hy). apply to_Q_nonneg.
      rewrite Forall_forall in Hl. apply Hl, list_elem_of_In, Hy.
    - apply Qinv_le_0_compat. unfold Qle. cbn. lia. }
  rewrite <- (Qred_correct q) in Hq. unfold Qle in Hq. cbn in Hq. lia.
Qed.

Lemma fold_add_pinf l : forall acc,
  acc = S754_infinity false ->
  Forall (fun x => x = S754_infinity false) l ->
  fold_left F64.add l acc = S754_infinity false.
Proof.
  induction l as [|x l IH]; intros acc Ha Hl; [exact Ha|].
  apply Forall_cons in Hl as [-> Hl]. subst acc. cbn [fold_left]. apply IH; [reflexivity | exact Hl].
Qed.

Lemma fold_add_pinf_nan l : forall acc,
  acc = S754_infinity false \/ acc = S754_nan ->
  Forall (fun x => x = S754_infinity false \/ x = S754_nan) l ->
  fold_left F64.add l acc = S754_infinity false \/ fold_left F64.add l acc = S754_nan.
Proof.
  induction l as [|x l IH]; intros acc Ha Hl; [exact Ha|].
  apply Forall_cons in Hl as [Hx Hl]. cbn [fold_left]. apply IH; [|exact Hl].
  destruct Ha as [->| ->], Hx as [->| ->]; cbn; auto.
Qed.

End MeanSign.

Lemma filter_Forall {A} (P : A -> Prop) (f : A -> bool) l :
  Forall P l -> Forall (fun x => P x /\ f x = true) (List.filter f l).
Proof.
  induction 1 as [|x l Hx _ IH]; [constructor|]. cbn [List.filter].
  destruct (f x) eqn:E; [constructor; auto | exact IH].
Qed.

Lemma filter_nil_Forall {A} (f : A -> bool) l :
  List.filter f l = [] -> Forall (fun x => f x = false) l.
Proof.
  induction l as [|x l IH]; [constructor|]. cbn [List.filter].
  destruct (f x) eqn:E; [discriminate|]. intros H. constructor; auto.
Qed.

(** The mean of non-negative floats is a non-negative float. *)
Lemma mean_nonnegative (data : list float) :
  data <> [] ->
  Forall (fun x => nonnegative x = true) data ->
  exists m, mean data = Ok m /\ F64.signed false m.
Proof.
  intros Hne Hd. unfold mean. destruct data as [|x0 l0] eqn:E; [done|]. rewrite <- E in *.
  destruct (List.filter _ data) as [|x xs] eqn:F.
  - eexists. split; [reflexivity|]. apply of_Q_mean_signed, Hd.
  - eexists. split; [reflexivity|].
    pose proof (filter_Forall _ (fun x => negb (F64.is_finite x)) _ Hd) as HF.
    rewrite F in HF.
    assert (HF' : Forall (fun x => x = S754_infinity false) (x :: xs)).
    { eapply Forall_impl; [exact HF|]. intros y [Hy1 Hy2].
      destruct y as [s|s| |s m e]; try discriminate. destruct s; [discriminate | reflexivity]. }
    apply Forall_cons in HF' as [-> HF']. right. left. apply fold_add_pinf; [reflexivity | exact HF'].
Qed.

(** The mean of absolute values is NaN or a non-negative float. *)
Lemma mean_abs (data : list float) m :
  Forall (fun x => exists y, x = F64.abs y) data ->
  mean data = Ok m ->
  m = S754_nan \/ F64.signed false m.
Proof.
  intros Hd. unfold mean. destruct data as [|x0 l0] eqn:E; [done|]. rewrite <- E in *.
  assert (Hd' : Forall (fun x => x = S754_nan \/ nonnegative x = true) data).
  { eapply Forall_impl; [exact Hd|]. intros x [y ->]. destruct y; cbn; auto. }
  destruct (List.filter _ data) as [|x xs] eqn:F; intros [= <-].
  - right. apply of_Q_mean_signed.
    apply filter_nil_Forall in F. rewrite Forall_forall in F, Hd'. apply Forall_forall.
    intros x Hx. destruct (Hd' x Hx) as [->|H]; [|exact H].
    specialize (F _ Hx). discriminate.
  - pose proof (filter_Forall _ (fun x => negb (F64.is_finite x)) _ Hd') as HF.
    rewrite F in HF.
    assert (HF' : Forall (fun x => x = S754_infinity false \/ x = S754_nan) (x :: xs)).
    { eapply Forall_impl; [exact HF|]. intros y [[->|Hy1] Hy2]; [auto|].
      destruct y as [s|s| |s m e]; try discriminate. destruct s; [discriminate | auto]. }
    apply Forall_cons in HF' as [Hx HF'].
    destruct (fold_add_pinf_nan xs x Hx HF') as [->| ->]; [right; right; left; reflexivity | left; reflexivity].
Qed.

Lemma signed_false_nonnegative x : F64.signed false x -> nonnegative x = true.
Proof. intros [->|[->|(m & e & ->)]]; reflexivity. Qed.

(** X6.  A score [compare_features] returns is never negative: it is a NaN
    or it is at least [0.0]. *)
Theorem compare_features_not_negative (f1 f2 : option (list float)) (score : float) :
  compare_features f1 f2 = Ok score ->
  is_nan score = true \/ nonnegative score = true.
Proof.
  destruct f1 as [a|], f2 as [b|]; cbn [compare_features];
    try (intros [= <-]; right; reflexivity).
  destruct (negb (length a =? length b)); [intros [= <-]; right; reflexivity|].
  intros H. apply mean_abs in H.
  - destruct H as [->|H]; [left; reflexivity | right; apply signed_false_nonnegative, H].
  - apply Forall_forall. intros x Hx%list_elem_of_In%in_map_iff.
    destruct Hx as (ab & <- & _). eauto.
Qed.

Lemma compare_features_not_negative_witness :
  exists score,
    compare_features (Some base_profile) (Some impostor_base) = Ok score /\
    (is_nan score = true \/ nonnegative score = true).
Proof.
  eexists. split; [vm_compute; reflexivity|].
  apply (compare_features_not_negative (Some base_profile) (Some impostor_base)).
  vm_compute. reflexivity.
Defined.

(** ** The aggregator: outcomes and sign of the average *)

Lemma same_length_forallb (s0 : list float) (samples : list (list float)) :
  forallb (fun s => length s =? length s0) samples = true <->
  Forall (fun s => length s = length s0) samples.
Proof.
  rewrite forallb_forall, Forall_forall. split; intros H s Hs.
  - apply Nat.eqb_eq, H, list_elem_of_In, Hs.
  - apply Nat.eqb_eq, H, list_elem_of_In, Hs.
Qed.

(** X7.  [average_samples] never raises.  It returns [None] exactly when
    there is no sample or two samples differ in length, and a vector it
    returns has the length of every sample. *)
Theorem average_samples_outcome (samples : list (list float)) :
  (exists r, average_samples samples = Ok r) /\
  (average_samples samples = Ok None <->
     samples = [] \/
     exists a b, a ∈ samples /\ b ∈ samples /\ length a <> length b) /\
  (forall avg, average_samples samples = Ok (Some avg) ->
     forall s, s ∈ samples -> length avg = length s).
Proof.
  destruct samples as [|s0 rest].
  - split; [eexists; reflexivity|]. split; [split; [auto | reflexivity]|].
    intros avg [=].
  - destruct (forallb (fun s => length s =? length s0) (s0 :: rest)) eqn:F.
    + pose proof (proj1 (same_length_forallb s0 (s0 :: rest)) F) as Hall.
      apply Forall_cons in Hall as [_ Hrest].
      destruct (average_samples_equal_length s0 rest Hrest) as (avg & Havg & Hlen).
      split; [eexists; exact Havg|]. split.
      * rewrite Havg. split; [discriminate|]. intros [[=]|(a & b & Ha & Hb & Hab)].
        exfalso. apply Hab.
        pose proof (proj1 (same_length_forallb s0 (s0 :: rest)) F) as Hall.
        rewrite Forall_forall in Hall. rewrite (Hall a Ha), (Hall b Hb). reflexivity.
      * intros avg'. rewrite Havg. intros [= <-] s Hs.
        pose proof (proj1 (same_length_forallb s0 (s0 :: rest)) F) as Hall.
        rewrite Forall_forall in Hall. rewrite (Hall s Hs). exact Hlen.
    + assert (E : average_samples (s0 :: rest) = Ok None).
      { unfold average_samples. rewrite F. reflexivity. }
      split; [eexists; exact E|]. split; [|rewrite E; discriminate].
      split; [|intros _; exact E]. intros _. right.
      assert (Hex : Exists (fun s => length s <> length s0) (s0 :: rest)).
      { apply not_Forall_Exists; [intros s; apply _|].
        intros HF. apply same_length_forallb in HF. congruence. }
      apply Exists_exists in Hex as (a & Ha & Hne).
      exists a, s0. split; [exact Ha|]. split; [left | exact Hne].
Qed.

Lemma rmap_Forall2 {A B} (f : A -> result B) (P : A -> B -> Prop) l :
  Forall (fun x => exists y, f x = Ok y /\ P x y) l ->
  exists ys, rmap f l = Ok ys /\ Forall2 P l ys.
Proof.
  induction 1 as [|x l (y & Hy & Py) _ (ys & IH & HP)]; [exists []; split; [reflexivity | constructor]|].
  exists (y :: ys). cbn [rmap]. rewrite Hy. cbn [rbind]. rewrite IH. split; [reflexivity|].
  constructor; assumption.
Qed.

Lemma average_samples_keeps_nonnegative (samples : list (list float)) (avg : list float) :
  Forall (fun s => forallb nonnegative s = true) samples ->
  average_samples samples = Ok (Some avg) ->
  forallb nonnegative avg = true.
Proof.
  intros Hs. unfold average_samples. destruct samples as [|s0 rest] eqn:E; [discriminate|].
  rewrite <- E in *. destruct (forallb _ samples); [|discriminate].
  destruct (rmap_Forall2 mean (fun _ m => nonnegative m = true) (zip_star samples)) as (ys & Hys & HP).
  { apply Forall_forall. intros col Hc. unfold zip_star in Hc. rewrite E in Hc. rewrite <- E in Hc.
    apply list_elem_of_In, in_map_iff in Hc as (j & <- & _).
    destruct (mean_nonnegative (List.map (fun s => nth j s F64.zero) samples)) as (m & Hm & Sm).
    - rewrite E. discriminate.
    - apply Forall_forall. intros x Hx%list_elem_of_In%in_map_iff.
      destruct Hx as (s & <- & Hsin). rewrite Forall_forall in Hs.
      specialize (Hs s (proj2 (list_elem_of_In _ _) Hsin)).
      rewrite forallb_forall in Hs.
      destruct (nth_in_or_default j s F64.zero) as [Hin| ->]; [apply Hs, Hin | reflexivity].
    - exists m. split; [exact Hm | apply signed_false_nonnegative, Sm]. }
  rewrite Hys. cbn [rbind]. intros [= <-].
  apply forallb_forall. intros y Hy%list_elem_of_In.
  clear Hys. induction HP as [|c m cols ms Hm _ IH]; [inversion Hy|].
  apply elem_of_cons in Hy as [->|Hy]; [exact Hm | exact (IH Hy)].
Qed.

(** X8.  The average of samples without negative entries and without NaN has
    no negative entry and no NaN. *)
Theorem average_samples_nonnegative (samples : list (list float)) (avg : list float) :
  Forall (fun s => forallb nonnegative s = true) samples ->
  average_samples samples = Ok (Some avg) ->
  forallb nonnegative avg = true /\ existsb is_nan avg = false.
Proof.
  intros Hs Havg. pose proof (average_samples_keeps_nonnegative samples avg Hs Havg) as H.
  split; [exact H|]. apply not_true_is_false. intros Hn.
  apply existsb_exists in Hn as (x & Hx & Hnan). rewrite forallb_forall in H.
  specialize (H x Hx). destruct x; discriminate.
Qed.

Lemma average_samples_nonnegative_witness :
  exists avg,
    average_samples [base_profile; impostor_base] = Ok (Some avg) /\
    forallb nonnegative avg = true /\ existsb is_nan avg = false.
Proof.
  eexists. split; [vm_compute; reflexivity|].
  apply (average_samples_nonnegative [base_profile; impostor_base]).
  - constructor; [vm_compute; reflexivity|]. constructor; [vm_compute; reflexivity|].
    constructor.
  - vm_compute. reflexivity.
Defined.

(** ** The aggregator: order of the samples *)

Lemma filter_perm {A} (f : A -> bool) (l l' : list A) :
  l ≡ₚ l' -> List.filter f l ≡ₚ List.filter f l'.
Proof.
  induction 1 as [|x l l' _ IH|x y l|l l' l'' _ IH1 _ IH2]; cbn [List.filter].
  - reflexivity.
  - destruct (f x); [constructor|]; exact IH.
  - destruct (f x), (f y); try reflexivity. apply perm_swap.
  - etransitivity; eassumption.
Qed.

Lemma fold_Qplus_perm (l l' : list Q) :
  l ≡ₚ l' -> forall acc, (fold_left Qplus l acc == fold_left Qplus l' acc)%Q.
Proof.
  induction 1 as [|x l l' _ IH|x y l|l l' l'' _ IH1 _ IH2]; intros acc; cbn [fold_left].
  - reflexivity.
  - apply IH.
  - assert (E : forall (l : list Q) a b, (a == b)%Q -> (fold_left Qplus l a == fold_left Qplus l b)%Q).
    { clear. induction l as [|q l IH]; intros a b Hab; [exact Hab|].
      cbn [fold_left]. apply IH. rewrite Hab. reflexivity. }
    apply E. ring.
  - rewrite IH1. apply IH2.
Qed.

Lemma add_nonfinite_swap a b acc :
  nonfinite a -> nonfinite b ->
  F64.add (F64.add acc a) b = F64.add (F64.add acc b) a.
Proof.
  unfold nonfinite. intros Ha Hb.
  destruct a as [sa|sa| |sa ma ea]; try discriminate;
  destruct b as [sb|sb| |sb mb eb]; try discriminate;
  destruct acc as [sc|sc| |sc mc ec]; try reflexivity;
  try (destruct sa, sb, sc; reflexivity); try (destruct sa, sb; reflexivity);
  try (destruct sa, sc; reflexivity); try (destruct sb, sc; reflexivity);
  try (destruct sa; reflexivity); try (destruct sb; reflexivity).
Qed.

Lemma fold_add_perm (l l' : list float) :
  l ≡ₚ l' -> Forall nonfinite l ->
  forall acc, fold_left F64.add l acc = fold_left F64.add l' acc.
Proof.
  induction 1 as [|x l l' Hp IH|x y l|l l' l'' Hp1 IH1 Hp2 IH2]; intros HF acc; cbn [fold_left].
  - reflexivity.
  - apply Forall_cons in HF as [_ HF]. apply IH, HF.
  - apply Forall_cons in HF as [Hy HF]. apply Forall_cons in HF as [Hx HF].
    rewrite (add_nonfinite_swap y x acc Hy Hx). reflexivity.
  - rewrite IH1 by exact HF. apply IH2. rewrite <- Hp1. exact HF.
Qed.

Lemma add_zero_nonfinite x : nonfinite x -> F64.add F64.zero x = x.
Proof. unfold nonfinite. destruct x as [s|s| |s m e]; try discriminate; reflexivity. Qed.

Lemma mean_perm (l l' : list float) : l ≡ₚ l' -> mean l = mean l'.
Proof.
  intros Hp. unfold mean.
  destruct l as [|x0 l0] eqn:El.
  { apply Permutation_nil_l in Hp. subst l'. reflexivity. }
  destruct l' as [|y0 l0'] eqn:El'.
  { apply Permutation_nil_r in Hp. discriminate. }
  rewrite <- El, <- El' in *.
  pose proof (filter_perm (fun x => negb (F64.is_finite x)) l l' Hp) as Hf.
  destruct (List.filter _ l) as [|x xs] eqn:F; destruct (List.filter _ l') as [|y ys] eqn:F'.
  - f_equal. f_equal. apply Qred_complete.
    rewrite (fold_Qplus_perm _ _ (fmap_Permutation F64.to_Q _ _ Hp)).
    rewrite (Permutation_length Hp). reflexivity.
  - apply Permutation_nil_l in Hf. discriminate.
  - apply Permutation_nil_r in Hf. discriminate.
  - f_equal.
    assert (HF : Forall nonfinite (x :: xs)).
    { rewrite <- F. apply Forall_forall. intros z Hz%list_elem_of_In%filter_In.
      destruct Hz as [_ Hz]. unfold nonfinite. destruct (F64.is_finite z); [discriminate | reflexivity]. }
    assert (HF' : Forall nonfinite (y :: ys)) by (rewrite <- Hf; exact HF).
    pose proof (fold_add_perm _ _ Hf HF F64.zero) as E. cbn [fold_left] in E.
    rewrite add_zero_nonfinite in E by (apply Forall_cons in HF as [H _]; exact H).
    rewrite add_zero_nonfinite in E by (apply Forall_cons in HF' as [H _]; exact H).
    exact E.
Qed.

Lemma width_same_length (s0 : list float) (rest : list (list float)) :
  Forall (fun s => length s = length s0) rest ->
  fold_right Nat.min (length s0) (List.map (@length float) rest) = length s0.
Proof.
  induction 1 as [|s rest Hs _ IH]; [reflexivity|].
  cbn [List.map fold_right]. rewrite IH. lia.
Qed.

Lemma rmap_ext {A B} (f : A -> result B) (l l' : list A) :
  Forall2 (fun x y => f x = f y) l l' -> rmap f l = rmap f l'.
Proof.
  induction 1 as [|x y l l' Hxy _ IH]; [reflexivity|].
  cbn [rmap]. rewrite Hxy, IH. reflexivity.
Qed.

Lemma average_samples_same_length (s0 : list float) (rest : list (list float)) :
  Forall (fun s => length s = length s0) (s0 :: rest) ->
  average_samples (s0 :: rest)
  = rbind (rmap mean (List.map (fun j => List.map (fun s => nth j s F64.zero) (s0 :: rest))
                               (seq 0 (length s0))))
          (fun avg => Ok (Some avg)).
Proof.
  intros H. unfold average_samples.
  rewrite (proj2 (same_length_forallb s0 (s0 :: rest)) H).
  unfold zip_star. apply Forall_cons in H as [_ H]. rewrite (width_same_length s0 rest H).
  reflexivity.
Qed.

Lemma average_samples_other_length (s0 : list float) (rest : list (list float)) :
  ~ Forall (fun s => length s = length s0) (s0 :: rest) ->
  average_samples (s0 :: rest) = Ok None.
Proof.
  intros H. unfold average_samples.
  destruct (forallb _ (s0 :: rest)) eqn:F; [|reflexivity].
  apply same_length_forallb in F. contradiction.
Qed.

(** X9.  [average_samples] does not depend on the order of the samples: in
    either order it returns the same outcome, with the same float at every
    place and a NaN where the other has a NaN ([float] has one NaN: the sign
    and the payload of a NaN are not told apart). *)
Theorem average_samples_perm (samples samples' : list (list float)) :
  samples ≡ₚ samples' -> average_samples samples = average_samples samples'.
Proof.
  intros Hp.
  destruct samples as [|s0 rest].
  { apply Permutation_nil_l in Hp. subst. reflexivity. }
  destruct samples' as [|s0' rest'].
  { apply Permutation_nil_r in Hp. discriminate. }
  destruct (decide (Forall (fun s : list float => length s = length s0) (s0 :: rest))) as [F|F].
  - assert (H0 : length s0' = length s0).
    { rewrite Forall_forall in F. apply F. rewrite Hp. left. }
    assert (F' : Forall (fun s => length s = length s0') (s0' :: rest')).
    { rewrite H0, <- Hp. exact F. }
    rewrite (average_samples_same_length _ _ F), (average_samples_same_length _ _ F'), H0.
    f_equal. apply rmap_ext, Forall2_fmap, Forall_Forall2_diag, Forall_forall.
    intros j _. apply mean_perm, fmap_Permutation, Hp.
  - rewrite (average_samples_other_length _ _ F). symmetry.
    apply average_samples_other_length. intros F'. apply F.
    assert (H0 : length s0 = length s0').
    { rewrite Forall_forall in F'. apply F'. rewrite <- Hp. left. }
    rewrite H0, Hp. exact F'.
Qed.

Lemma average_samples_perm_witness :
  average_samples [base_profile; impostor_base] = average_samples [impostor_base; base_profile].
Proof.
  apply (average_samples_perm [base_profile; impostor_base] [impostor_base; base_profile]).
  apply perm_swap.
Defined.

(** ** The store and the orchestrators *)



Lemma save_profile_other name other v f :
  name <> other -> load_profile other (snd (save_profile name v f)) = load_profile other f.
Proof.
  intros H. destruct f as [[|[d|]]|]; cbn; try reflexivity;
    rewrite lookup_insert_ne by done; try rewrite lookup_empty; reflexivity.
Qed.



Lemma register_loop_disk idx : forall acc w,
  disk (snd (register_loop idx acc w)) = disk w.
Proof.
  induction idx as [|i idx IH]; intros acc w; [reflexivity|].
  cbn [register_loop]. unfold record_keystrokes, next_attempt. run.
  destruct (keyboard w) as [|s rest]; [reflexivity|].
  destruct (extract_features (typed s) (press s) (rel s)) as [f|]; run; [|reflexivity].
  rewrite IH. reflexivity.
Qed.

(** X11.  [interactive_register] leaves the profile file as it was unless it
    returns [True], and it never changes what [load_profile] finds under
    another name. *)
Theorem interactive_register_atomic (name other : string) (w : world) :
  (fst (interactive_register name w) = Ok true \/
   disk (snd (interactive_register name w)) = disk w) /\
  (name <> other ->
   load_profile other (disk (snd (interactive_register name w))) = load_profile other (disk w)).
Proof.
  unfold interactive_register.
  unfold mbind, M_bind, bind, mret, M_ret, ret, print, emit. cbn -[register_loop seq average_samples save_profile].
  pose proof (register_loop_disk (seq 0 3) []
     {| disk := disk w; keyboard := keyboard w; log := log w ++ [Print (MsgRegistering name)] |}) as Hd.
  destruct (register_loop _ _ _) as [[[samples|]|e] w1]; cbn [snd disk] in Hd;
    cbn -[average_samples save_profile].
  - unfold lift. destruct (average_samples samples) as [avg|e]; cbn -[save_profile].
    + unfold save, write, mbind, M_bind, bind, emit. cbn -[save_profile].
      destruct (save_profile name avg (disk w1)) as [[[]|e] f'] eqn:Es; cbn.
      * split; [left; reflexivity|]. intros Hne.
        replace f' with (snd (save_profile name avg (disk w1))) by (rewrite Es; reflexivity).
        rewrite save_profile_other by done. rewrite Hd. reflexivity.
      * assert (f' = disk w1) as ->.
        { destruct (disk w1) as [[|[d|]]|]; cbn in Es; congruence. }
        rewrite Hd. split; [right; reflexivity | reflexivity].
    + rewrite Hd. split; [right; reflexivity | reflexivity].
  - rewrite Hd. split; [right; reflexivity | reflexivity].
  - rewrite Hd. split; [right; reflexivity | reflexivity].
Qed.

Lemma output_since_app w d k out :
  output_since w (World d k (log w ++ out)) = out.
Proof. unfold output_since. cbn [log]. apply drop_app_length. Qed.

Lemma compare_features_returns f1 (b : list float) :
  b <> [] -> exists score, compare_features f1 (Some b) = Ok score.
Proof.
  intros Hb. destruct f1 as [a|]; [|eexists; reflexivity]. unfold compare_features.
  destruct (Nat.eqb_spec (length a) (length b)) as [E|E]; cbn [negb]; [|eexists; reflexivity].
  destruct a as [|x a], b as [|y b]; try done. cbn [combine List.map]. apply mean_nonempty.
Qed.

Lemma extract_features_nonempty typed p r v :
  extract_features typed p r = Some v -> v <> [].
Proof.
  intros H ->. destruct (extract_features_Some _ _ _ _ H) as (Hlen & _).
  vm_compute in Hlen. discriminate.
Qed.

Lemma interactive_test_run name threshold w :
  test_run name (default (F64.lit 10 2) threshold) w
    (fst (interactive_test name threshold w)) (snd (interactive_test name threshold w)).
Proof.
  unfold interactive_test, load. set (th := default (F64.lit 10 2) threshold).
  unfold mbind, M_bind, bind. cbn -[report].
  destruct (load_profile name (disk w)) as [stored|] eqn:L.
  - unfold record_keystrokes, next_attempt, mbind, M_bind, bind, emit. cbn -[report].
    destruct (keyboard w) as [|s rest] eqn:K.
    + cbn. apply (run_no_input _ _ _ stored); assumption.
    + destruct (extract_features (typed s) (press s) (rel s)) as [features|] eqn:X.
      * destruct (compare_features (Some stored) (Some features)) as [score|e] eqn:C.
        -- rewrite (report_run _ _ _ _ _ C). cbn. rewrite <- app_assoc. cbn.
           eapply run_scored; eassumption.
        -- exfalso.
           destruct (compare_features_returns (Some stored) features
                       (extract_features_nonempty _ _ _ _ X)) as [score Hs].
           congruence.
      * unfold print, emit. cbn. rewrite <- app_assoc. cbn.
        eapply run_try_again; eassumption.
  - unfold print, emit. cbn. apply run_not_found. exact L.
Qed.

(** X12.  [interactive_test] never writes: the profile file is left as it
    was, no call of [save_profile] is made, and at most one attempt is
    recorded and taken from the input. *)
Theorem interactive_test_reads_only (name : string) (threshold : option float) (w : world) :
  disk (snd (interactive_test name threshold w)) = disk w /\
  (keyboard (snd (interactive_test name threshold w)) = keyboard w \/
   keyboard (snd (interactive_test name threshold w)) = tail (keyboard w)) /\
  existsb is_save (output_since w (snd (interactive_test name threshold w))) = false /\
  length (List.filter is_capture (output_since w (snd (interactive_test name threshold w)))) <= 1.
Proof.
  pose proof (interactive_test_run name threshold w) as H.
  destruct (interactive_test name threshold w) as [r w']. cbn [fst snd] in *.
  inversion H as [L|stored L K|stored s rest L K X|stored s rest features score L K X C]; subst;
    rewrite ?output_since_app; cbn [disk keyboard]; rewrite ?K; cbn.
  - repeat split; auto.
  - repeat split; auto.
  - repeat split; auto.
  - destruct (F64.leb score _); repeat split; auto.
Qed.

(** X13.  [interactive_test] prints that access is granted exactly when the
    name has a stored profile, an attempt is there, [extract_features]
    accepts it, and the score is at most the threshold, [0.10] when none is
    given. *)
Theorem interactive_test_grants_iff (name : string) (threshold : option float) (w : world) :
  verdict (output_since w (snd (interactive_test name threshold w))) = ACCEPT <->
  exists stored s rest features score,
    load_profile name (disk w) = Some stored /\
    keyboard w = s :: rest /\
    extract_features (typed s) (press s) (rel s) = Some features /\
    compare_features (Some stored) (Some features) = Ok score /\
    F64.leb score (default (F64.lit 10 2) threshold) = true.
Proof.
  pose proof (interactive_test_run name threshold w) as H.
  destruct (interactive_test name threshold w) as [r w']. cbn [fst snd] in *.
  inversion H as [L|stored L K|stored s rest L K X|stored s rest features score L K X C]; subst;
    rewrite ?output_since_app.
  - split; [discriminate|]. intros (? & ? & ? & ? & ? & H1 & _). congruence.
  - split; [discriminate|]. intros (? & ? & ? & ? & ? & _ & H1 & _). congruence.
  - split; [discriminate|]. intros (? & ? & ? & ? & ? & _ & H1 & H2 & _).
    rewrite K in H1. injection H1 as <- <-. congruence.
  - split.
    + intros Hv. exists stored, s, rest, features, score. repeat (split; [assumption|]).
      destruct (F64.leb score _); [reflexivity | discriminate].
    + intros (st' & s' & rest' & f' & sc' & H1 & H2 & H3 & H4 & H5).
      rewrite K in H2. injection H2 as <- <-.
      assert (st' = stored) as -> by congruence.
      assert (f' = features) as -> by congruence.
      assert (sc' = score) as -> by congruence.
      rewrite H5. reflexivity.
Qed.

Lemma interactive_register_three name w s1 s2 s3 rest f1 f2 f3 avg :
  keyboard w = s1 :: s2 :: s3 :: rest ->
  extract_features (typed s1) (press s1) (rel s1) = Some f1 ->
  extract_features (typed s2) (press s2) (rel s2) = Some f2 ->
  extract_features (typed s3) (press s3) (rel s3) = Some f3 ->
  average_samples [f1; f2; f3] = Ok (Some avg) ->
  interactive_register name w
  = match fst (save_profile name (Some avg) (disk w)) with
    | Ok _ =>
        (Ok true,
         World (snd (save_profile name (Some avg) (disk w))) rest
           (log w ++ Print (MsgRegistering name) :: loop_output 0 3 ++
              [Save name (Some avg); Print (MsgSaved name)]))
    | Raise e =>
        (Raise e,
         World (snd (save_profile name (Some avg) (disk w))) rest
           (log w ++ Print (MsgRegistering name) :: loop_output 0 3 ++
              [Save name (Some avg)]))
    end.
Proof.
  intros Hk H1 H2 H3 Havg. unfold interactive_register.
  unfold mbind, M_bind, bind, mret, M_ret, ret, print, emit. cbn -[register_loop seq loop_output].
  rewrite (register_loop_success [f1; f2; f3] 0 [] [s1; s2; s3] _ rest).
  - cbn -[loop_output average_samples]. unfold lift. rewrite Havg. unfold save, write.
    unfold mbind, M_bind, bind, emit. cbn -[loop_output save_profile].
    destruct (save_profile name (Some avg) (disk w)) as [[[]|e] f']; cbn -[loop_output];
      rewrite <- !app_assoc; reflexivity.
  - repeat apply Forall2_cons_2; [exact H1 | exact H2 | exact H3 | apply Forall2_nil_2].
  - exact Hk.
Qed.

(** X14.  When the profile file holds JSON that is no object, no name has a
    profile, and a registration with three good attempts records all three,
    calls [save_profile] with their average and ends with TypeError, the
    file left as it was and nothing said about a saved profile. *)
Theorem interactive_register_non_object (name : string) (w : world)
    (s1 s2 s3 : sample) (rest : list sample) (f1 f2 f3 : list float) :
  disk w = Some (Document JOther) ->
  keyboard w = s1 :: s2 :: s3 :: rest ->
  extract_features (typed s1) (press s1) (rel s1) = Some f1 ->
  extract_features (typed s2) (press s2) (rel s2) = Some f2 ->
  extract_features (typed s3) (press s3) (rel s3) = Some f3 ->
  (forall n, load_profile n (disk w) = None) /\
  exists avg,
    average_samples [f1; f2; f3] = Ok (Some avg) /\
    interactive_register name w
    = (Raise TypeError,
       World (disk w) rest
         (log w ++ Print (MsgRegistering name) :: loop_output 0 3 ++ [Save name (Some avg)])).
Proof.
  intros Hd Hk H1 H2 H3. split; [intros n; rewrite Hd; reflexivity|].
  destruct (extract_features_Some _ _ _ _ H1) as (L1 & _).
  destruct (extract_features_Some _ _ _ _ H2) as (L2 & _).
  destruct (extract_features_Some _ _ _ _ H3) as (L3 & _).
  destruct (average_samples_equal_length f1 [f2; f3]) as (avg & Havg & Hlen).
  { repeat apply Forall_cons_2; [congruence | congruence | apply Forall_nil_2]. }
  exists avg. split; [exact Havg|].
  rewrite (interactive_register_three name w s1 s2 s3 rest f1 f2 f3 avg Hk H1 H2 H3 Havg).
  rewrite Hd. reflexivity.
Qed.

Lemma interactive_register_non_object_witness :
  exists f,
    extract_features (typed steady_attempt) (press steady_attempt) (rel steady_attempt)
      = Some f /\
    (forall n, load_profile n (disk no_object_store) = None) /\
    exists avg,
      average_samples [f; f; f] = Ok (Some avg) /\
      interactive_register "alice" no_object_store
      = (Raise TypeError,
         World (disk no_object_store) []
           (log no_object_store ++ Print (MsgRegistering "alice") :: loop_output 0 3
              ++ [Save "alice" (Some avg)])).
Proof.
  destruct (extract_features (typed steady_attempt) (press steady_attempt) (rel steady_attempt))
    as [f|] eqn:E; [|vm_compute in E; discriminate].
  exists f. split; [reflexivity|].
  apply (interactive_register_non_object "alice" no_object_store
           steady_attempt steady_attempt steady_attempt [] f f f);
    try exact E; reflexivity.
Defined.






(** ** The demo utilities *)

Lemma max_zero_signed x : F64.signed false (max_zero x).
Proof.
  unfold max_zero. destruct x as [s|s| |s m e]; cbn; try (left; reflexivity).
  - destruct s; [left | right; left]; reflexivity.
  - destruct s; [left; reflexivity | right; right; eauto].
Qed.

Lemma jitter_loop_length gauss jitter base : forall calls,
  length (jitter_loop gauss jitter calls base) = length base.
Proof. induction base as [|v base IH]; intros calls; cbn; [|rewrite IH]; reflexivity. Qed.

Lemma jitter_loop_signed gauss jitter base : forall calls,
  Forall (F64.signed false) (jitter_loop gauss jitter calls base).
Proof.
  induction base as [|v base IH]; intros calls; cbn [jitter_loop]; constructor.
  - apply max_zero_signed.
  - apply IH.
Qed.

Lemma jitter_loop_lookup gauss jitter base : forall calls i v,
  base !! i = Some v ->
  jitter_loop gauss jitter calls base !! i
  = Some (max_zero (F64.add v (gauss (calls + i) jitter))).
Proof.
  induction base as [|x base IH]; intros calls i v H; [discriminate|].
  cbn [jitter_loop]. destruct i as [|i].
  - injection H as ->. rewrite Nat.add_0_r. reflexivity.
  - change ((x :: base) !! S i) with (base !! i) in H.
    change (jitter_loop gauss jitter (S calls) base !! i
            = Some (max_zero (F64.add v (gauss (calls + S i) jitter)))).
    rewrite (IH (S calls) i v H). do 4 f_equal. lia.
Qed.

Lemma signed_false_not_nan x : F64.signed false x -> is_nan x = false.
Proof. intros [->|[->|(m & e & ->)]]; reflexivity. Qed.

(** X16.  [jittered_sample_from_profile] keeps the length of the profile,
    draws one number for each entry, and returns no negative entry and no
    NaN, whatever is drawn: each entry is the sum when that is above [0.0],
    and [0.0] otherwise. *)
Theorem jittered_sample_clamped (gauss : nat -> float -> float) (calls : nat)
    (base_features : list float) (jitter : float) :
  length (fst (jittered_sample_from_profile gauss calls base_features jitter))
    = length base_features /\
  snd (jittered_sample_from_profile gauss calls base_features jitter)
    = calls + length base_features /\
  forallb nonnegative (fst (jittered_sample_from_profile gauss calls base_features jitter)) = true /\
  existsb is_nan (fst (jittered_sample_from_profile gauss calls base_features jitter)) = false /\
  (forall i v, base_features !! i = Some v ->
     fst (jittered_sample_from_profile gauss calls base_features jitter) !! i
     = Some (if SFltb F64.zero (F64.add v (gauss (calls + i) jitter))
             then F64.add v (gauss (calls + i) jitter) else F64.zero)).
Proof.
  unfold jittered_sample_from_profile. cbn [fst snd].
  pose proof (jitter_loop_signed gauss jitter base_features calls) as HS.
  split; [apply jitter_loop_length|]. split; [reflexivity|]. split; [|split].
  - apply forallb_forall. intros x Hx%list_elem_of_In. rewrite Forall_forall in HS.
    apply signed_false_nonnegative, HS, Hx.
  - apply not_true_is_false. intros H. apply existsb_exists in H as (x & Hx%list_elem_of_In & Hn).
    rewrite Forall_forall in HS. rewrite (signed_false_not_nan x (HS x Hx)) in Hn. discriminate.
  - intros i v Hv. apply jitter_loop_lookup, Hv.
Qed.


(** ** The Windows branch of the fallback recorder *)

Lemma getwch_loop_nil fuel acc times c :
  chars c = [] -> getwch_loop fuel acc times c = (Waiting, c).
Proof.
  intros H. destruct fuel as [|fuel]; [reflexivity|].
  cbn [getwch_loop]. unfold mbind, C_bind, c_bind, getwch. rewrite H. reflexivity.
Qed.

Lemma getwch_loop_cons fuel acc times c ch rest :
  chars c = ch :: rest ->
  getwch_loop (S fuel) acc times c =
  let c' := Console (lines c) rest (events c) (clock c) (S (ticks c)) (printed c) (vars c) in
  if is_enter ch then (Returned (acc, times), c')
  else if Ascii.eqb ch backspace then
    match acc with
    | [] => getwch_loop fuel acc times c'
    | _ :: _ => getwch_loop fuel (removelast acc) (removelast times) c'
    end
  else getwch_loop fuel (acc ++ [ch]) (times ++ [clock c (ticks c)]) c'.
Proof.
  intros H. cbn [getwch_loop]. unfold mbind, C_bind, c_bind, getwch, time_time, is_enter.
  rewrite H. cbn.
  destruct (Ascii.eqb ch carriage_return || Ascii.eqb ch line_feed); [reflexivity|].
  destruct (Ascii.eqb ch backspace); [|reflexivity].
  destruct acc; reflexivity.
Qed.

Lemma nondecreasing_snoc l x :
  nondecreasing l = true -> Forall (fun t => F64.leb t x = true) l ->
  nondecreasing (l ++ [x]) = true.
Proof.
  induction l as [|a l IH]; intros Hn Hf; [reflexivity|].
  destruct l as [|b l].
  - cbn. inversion Hf; subst. rewrite H1. reflexivity.
  - cbn in Hn. apply andb_true_iff in Hn as [Hab Hn].
    change (F64.leb a b && nondecreasing ((b :: l) ++ [x]) = true).
    rewrite Hab. cbn [andb]. apply IH; [exact Hn|]. inversion Hf; assumption.
Qed.

Lemma nondecreasing_removelast l :
  nondecreasing l = true -> nondecreasing (removelast l) = true.
Proof.
  induction l as [|a l IH]; intros Hn; [reflexivity|].
  destruct l as [|b l]; [reflexivity|].
  cbn in Hn. apply andb_true_iff in Hn as [Hab Hn].
  specialize (IH Hn).
  change (removelast (a :: b :: l)) with (a :: removelast (b :: l)).
  destruct l as [|d l]; [reflexivity|].
  change (removelast (b :: d :: l)) with (b :: removelast (d :: l)) in *.
  change (F64.leb a b && nondecreasing (b :: removelast (d :: l)) = true).
  rewrite Hab. exact IH.
Qed.

Lemma Forall_removelast {A} (P : A -> Prop) (l : list A) :
  Forall P l -> Forall P (removelast l).
Proof.
  induction 1 as [|a l Ha Hl IH]; [constructor|].
  destruct l; [constructor|]. change (Forall P (a :: removelast (a0 :: l))).
  constructor; assumption.
Qed.

Lemma length_removelast {A} (l : list A) : length (removelast l) = length l - 1.
Proof.
  induction l as [|a l IH]; [reflexivity|].
  destruct l; [reflexivity|]. change (S (length (removelast (a0 :: l))) = S (length (a0 :: l)) - 1).
  rewrite IH. cbn. lia.
Qed.

(** The loop up to the first Enter. *)
Lemma getwch_loop_returns pre : forall fuel acc times c e post,
  chars c = pre ++ e :: post -> existsb is_enter pre = false -> is_enter e = true ->
  length (chars c) < fuel ->
  exists acc' times',
    getwch_loop fuel acc times c =
      (Returned (acc', times'),
       Console (lines c) post (events c) (clock c) (ticks c + S (length pre)) (printed c)
         (vars c)) /\
    length acc' <= length acc + length pre /\
    (length times = length acc -> length times' = length acc') /\
    ((forall m n, m < n -> F64.leb (clock c m) (clock c n) = true) ->
     nondecreasing times = true ->
     Forall (fun t => forall n, ticks c <= n -> F64.leb t (clock c n) = true) times ->
     nondecreasing times' = true).
Proof.
  induction pre as [|ch pre IH]; intros fuel acc times c e post Hc Hpre He Hfuel.
  - destruct fuel as [|fuel]; [lia|].
    rewrite (getwch_loop_cons _ _ _ _ _ _ Hc). cbv zeta. rewrite He.
    exists acc, times.
    split; [cbn [length]; replace (ticks c + 1) with (S (ticks c)) by lia; reflexivity|].
    split; [lia|]. split; auto.
  - destruct fuel as [|fuel]; [lia|].
    cbn in Hpre. apply orb_false_iff in Hpre as [Hch Hpre].
    rewrite (getwch_loop_cons _ _ _ _ _ _ Hc). cbv zeta. rewrite Hch.
    set (c' := Console (lines c) (pre ++ e :: post) (events c) (clock c) (S (ticks c))
                 (printed c) (vars c)).
    assert (Hfuel' : length (chars c') < fuel).
    { rewrite Hc in Hfuel. cbn in *. lia. }
    assert (Hshape : forall acc1 times1,
      length acc1 <= S (length acc) ->
      (length times = length acc -> length times1 = length acc1) ->
      ((forall m n, m < n -> F64.leb (clock c m) (clock c n) = true) ->
       nondecreasing times = true ->
       Forall (fun t => forall n, ticks c <= n -> F64.leb t (clock c n) = true) times ->
       nondecreasing times1 = true /\
       Forall (fun t => forall n, S (ticks c) <= n -> F64.leb t (clock c n) = true) times1) ->
      exists acc' times',
        getwch_loop fuel acc1 times1 c' =
          (Returned (acc', times'),
           Console (lines c) post (events c) (clock c) (ticks c + S (length (ch :: pre)))
             (printed c) (vars c)) /\
        length acc' <= length acc + length (ch :: pre) /\
        (length times = length acc -> length times' = length acc') /\
        ((forall m n, m < n -> F64.leb (clock c m) (clock c n) = true) ->
         nondecreasing times = true ->
         Forall (fun t => forall n, ticks c <= n -> F64.leb t (clock c n) = true) times ->
         nondecreasing times' = true)).
    { intros acc1 times1 Hacc Hlen Hmono.
      destruct (IH fuel acc1 times1 c' e post eq_refl Hpre He Hfuel')
        as (acc' & times' & Hrun & Hacc' & Hlen' & Hmono').
      exists acc', times'. split.
      - rewrite Hrun. cbn. repeat f_equal. lia.
      - split; [cbn [length]; lia|]. split; [auto|].
        intros Hclk Hn Hf. destruct (Hmono Hclk Hn Hf) as [Hn1 Hf1].
        apply Hmono'; assumption. }
    destruct (Ascii.eqb ch backspace).
    + destruct acc as [|a acc].
      * apply Hshape; [cbn; lia|auto|]. intros _ Hn Hf. split; [exact Hn|].
        eapply Forall_impl; [exact Hf|]. cbn. intros t Ht n Hle. apply Ht. lia.
      * apply Hshape.
        -- rewrite length_removelast. lia.
        -- intros Hl. rewrite !length_removelast. rewrite Hl. reflexivity.
        -- intros _ Hn Hf. split; [apply nondecreasing_removelast; exact Hn|].
           apply Forall_removelast. eapply Forall_impl; [exact Hf|].
           cbn. intros t Ht n Hle. apply Ht. lia.
    + apply Hshape.
      * rewrite length_app. cbn. lia.
      * intros Hl. rewrite !length_app. cbn. lia.
      * intros Hclk Hn Hf. split.
        -- apply nondecreasing_snoc; [exact Hn|].
           eapply Forall_impl; [exact Hf|]. cbn. intros t Ht. apply Ht. lia.
        -- apply Forall_app. split.
           ++ eapply Forall_impl; [exact Hf|]. cbn. intros t Ht n Hle. apply Ht. lia.
           ++ constructor; [|constructor]. intros n Hle. apply Hclk. lia.
Qed.

(** Without Enter the loop reads every key and waits. *)
Lemma getwch_loop_waits keys : forall fuel acc times c,
  chars c = keys -> existsb is_enter keys = false -> length keys < fuel ->
  getwch_loop fuel acc times c =
    (Waiting,
     Console (lines c) [] (events c) (clock c) (ticks c + length keys) (printed c) (vars c)).
Proof.
  induction keys as [|ch keys IH]; intros fuel acc times c Hc Hk Hfuel.
  - rewrite (getwch_loop_nil _ _ _ _ Hc). cbn. rewrite Nat.add_0_r.
    destruct c; cbn in *; subst; reflexivity.
  - destruct fuel as [|fuel]; [cbn in Hfuel; lia|].
    cbn in Hk. apply orb_false_iff in Hk as [Hch Hk].
    rewrite (getwch_loop_cons _ _ _ _ _ _ Hc). cbv zeta. rewrite Hch.
    cbn in Hfuel.
    assert (Hgo : forall acc1 times1,
      getwch_loop fuel acc1 times1
        (Console (lines c) keys (events c) (clock c) (S (ticks c)) (printed c) (vars c)) =
      (Waiting,
       Console (lines c) [] (events c) (clock c) (ticks c + length (ch :: keys)) (printed c)
         (vars c))).
    { intros acc1 times1.
      rewrite (IH fuel acc1 times1
                 (Console (lines c) keys (events c) (clock c) (S (ticks c)) (printed c) (vars c))
                 eq_refl Hk ltac:(lia)).
      cbn. repeat f_equal. lia. }
    destruct (Ascii.eqb ch backspace); [destruct acc|]; apply Hgo.
Qed.

(** Keys other than Enter and Backspace are recorded one by one, each with
    the clock's reading at the time. *)
Lemma getwch_loop_plain keys : forall fuel acc times c e post,
  chars c = keys ++ e :: post ->
  existsb is_enter keys = false -> existsb (fun ch => Ascii.eqb ch backspace) keys = false ->
  is_enter e = true -> length (chars c) < fuel ->
  getwch_loop fuel acc times c =
    (Returned (acc ++ keys, times ++ List.map (clock c) (seq (ticks c) (length keys))),
     Console (lines c) post (events c) (clock c) (ticks c + S (length keys)) (printed c)
       (vars c)).
Proof.
  induction keys as [|ch keys IH]; intros fuel acc times c e post Hc Hk Hb He Hfuel.
  - destruct fuel as [|fuel]; [lia|].
    rewrite (getwch_loop_cons _ _ _ _ _ _ Hc). cbv zeta. rewrite He.
    cbn. rewrite !app_nil_r. replace (ticks c + 1) with (S (ticks c)) by lia. reflexivity.
  - destruct fuel as [|fuel]; [lia|].
    cbn in Hk, Hb. apply orb_false_iff in Hk as [Hch Hk]. apply orb_false_iff in Hb as [Hchb Hb].
    rewrite (getwch_loop_cons _ _ _ _ _ _ Hc). cbv zeta. rewrite Hch, Hchb.
    rewrite (IH fuel _ _
               (Console (lines c) (keys ++ e :: post) (events c) (clock c) (S (ticks c))
                  (printed c) (vars c)) e post eq_refl Hk Hb He).
    + cbn. rewrite <- !app_assoc. cbn. repeat f_equal. lia.
    + rewrite Hc in Hfuel. cbn in *. lia.
Qed.

(** The loop's result depends on the clock only through the readings it
    takes. *)
Lemma getwch_loop_clock keys : forall fuel1 fuel2 acc times c1 c2,
  chars c1 = keys -> chars c2 = keys ->
  (forall k, clock c1 (ticks c1 + k) = clock c2 (ticks c2 + k)) ->
  length keys < fuel1 -> length keys < fuel2 ->
  fst (getwch_loop fuel1 acc times c1) = fst (getwch_loop fuel2 acc times c2).
Proof.
  induction keys as [|ch keys IH]; intros fuel1 fuel2 acc times c1 c2 H1 H2 Hclk Hf1 Hf2.
  - rewrite !getwch_loop_nil by assumption. reflexivity.
  - destruct fuel1 as [|fuel1]; [cbn in Hf1; lia|].
    destruct fuel2 as [|fuel2]; [cbn in Hf2; lia|].
    rewrite (getwch_loop_cons _ _ _ _ _ _ H1), (getwch_loop_cons _ _ _ _ _ _ H2). cbv zeta.
    cbn in Hf1, Hf2.
    assert (Hgo : forall acc1 times1,
      fst (getwch_loop fuel1 acc1 times1
             (Console (lines c1) keys (events c1) (clock c1) (S (ticks c1)) (printed c1)
                (vars c1))) =
      fst (getwch_loop fuel2 acc1 times1
             (Console (lines c2) keys (events c2) (clock c2) (S (ticks c2)) (printed c2)
                (vars c2)))).
    { intros acc1 times1. apply IH; try reflexivity; try lia.
      intros k. cbn [clock ticks]. replace (S (ticks c1) + k) with (ticks c1 + S k) by lia.
      replace (S (ticks c2) + k) with (ticks c2 + S k) by lia. apply Hclk. }
    destruct (is_enter ch); [reflexivity|].
    destruct (Ascii.eqb ch backspace); [destruct acc; apply Hgo|].
    specialize (Hclk 0). rewrite !Nat.add_0_r in Hclk. rewrite Hclk. apply Hgo.
Qed.

(** A key followed by Backspace leaves the loop's lists as they were. *)
Lemma getwch_loop_erase pre : forall fuel1 fuel2 acc times c1 c2 x post,
  chars c1 = pre ++ x :: backspace :: post -> chars c2 = pre ++ post ->
  is_enter x = false -> Ascii.eqb x backspace = false ->
  (forall k, k < length pre -> clock c1 (ticks c1 + k) = clock c2 (ticks c2 + k)) ->
  (forall k, length pre <= k -> clock c1 (ticks c1 + k + 2) = clock c2 (ticks c2 + k)) ->
  length (chars c1) < fuel1 -> length (chars c2) < fuel2 ->
  fst (getwch_loop fuel1 acc times c1) = fst (getwch_loop fuel2 acc times c2).
Proof.
  induction pre as [|ch pre IH];
    intros fuel1 fuel2 acc times c1 c2 x post H1 H2 Hx Hxb Hlo Hhi Hf1 Hf2.
  - destruct fuel1 as [|[|fuel1]]; [lia|rewrite H1 in Hf1; cbn in Hf1; lia|].
    rewrite (getwch_loop_cons _ _ _ _ _ _ H1). cbv zeta. rewrite Hx, Hxb.
    rewrite (getwch_loop_cons fuel1 (acc ++ [x]) (times ++ [clock c1 (ticks c1)])
               (Console (lines c1) (backspace :: post) (events c1) (clock c1) (S (ticks c1))
                  (printed c1) (vars c1)) backspace post eq_refl).
    cbv zeta.
    change (is_enter backspace) with false. change (Ascii.eqb backspace backspace) with true.
    cbv iota.
    destruct (acc ++ [x]) as [|a l] eqn:Eacc; [destruct acc; discriminate|].
    rewrite <- Eacc, !removelast_last.
    apply (getwch_loop_clock post);
      [reflexivity|exact H2| | |rewrite H2 in Hf2; exact Hf2].
    + intros k. cbn [clock ticks]. specialize (Hhi k ltac:(cbn; lia)).
      replace (S (S (ticks c1)) + k) with (ticks c1 + k + 2) by lia. exact Hhi.
    + rewrite H1 in Hf1. cbn in Hf1. lia.
  - destruct fuel1 as [|fuel1]; [lia|].
    destruct fuel2 as [|fuel2]; [lia|].
    rewrite (getwch_loop_cons _ _ _ _ _ _ H1), (getwch_loop_cons _ _ _ _ _ _ H2). cbv zeta.
    assert (Hgo : forall acc1 times1,
      fst (getwch_loop fuel1 acc1 times1
             (Console (lines c1) (pre ++ x :: backspace :: post) (events c1) (clock c1)
                (S (ticks c1)) (printed c1) (vars c1))) =
      fst (getwch_loop fuel2 acc1 times1
             (Console (lines c2) (pre ++ post) (events c2) (clock c2) (S (ticks c2))
                (printed c2) (vars c2)))).
    { intros acc1 times1. apply (IH _ _ _ _ _ _ x post); try reflexivity; try assumption.
      - intros k Hk. cbn [clock ticks]. replace (S (ticks c1) + k) with (ticks c1 + S k) by lia.
        replace (S (ticks c2) + k) with (ticks c2 + S k) by lia. apply Hlo. cbn. lia.
      - intros k Hk. cbn [clock ticks]. replace (S (ticks c1) + k + 2) with (ticks c1 + S k + 2) by lia.
        replace (S (ticks c2) + k) with (ticks c2 + S k) by lia. apply Hhi. cbn. lia.
      - rewrite H1 in Hf1. cbn in *. lia.
      - rewrite H2 in Hf2. cbn in *. lia. }
    destruct (is_enter ch); [reflexivity|].
    destruct (Ascii.eqb ch backspace); [destruct acc; apply Hgo|].
    specialize (Hlo 0 ltac:(cbn; lia)). rewrite !Nat.add_0_r in Hlo. rewrite Hlo. apply Hgo.
Qed.

Lemma length_string_of_list_ascii l :
  String.length (String.string_of_list_ascii l) = length l.
Proof. induction l as [|a l IH]; [reflexivity|]. cbn. rewrite IH. reflexivity. Qed.

(** The Windows branch as one call of the loop. *)
Lemma record_keystrokes_fallback_windows prompt c l ls :
  lines c = l :: ls ->
  record_keystrokes_fallback true prompt c =
  let c' :=
    Console ls (chars c) (events c) (clock c) (ticks c)
      (printed c ++ [prompt] ++ ["FALLBACK MODE (terminal-friendly)."]
         ++ ["You can type the whole password continuously when prompted, then press Enter to finish."]
         ++ ["Password to enter: '" +:+ PASSWORD +:+ "'"]
         ++ ["Press Enter to begin recording..."]
         ++ ["Recording... (type the password and press Enter when done)"])
      (vars c) in
  match getwch_loop (S (length (chars c))) [] [] c' with
  | (Returned r, c'') =>
      (Returned (Sample (String.string_of_list_ascii (fst r)) (snd r)
                   (List.map (fun t => F64.add t dwell_estimate) (snd r))), c'')
  | (Raised e, c'') => (Raised e, c'')
  | (Waiting, c'') => (Waiting, c'')
  end.
Proof.
  intros Hl. unfold record_keystrokes_fallback.
  unfold mbind, C_bind, c_bind, mret, C_ret, c_ret, put, input, get_console.
  cbn -[getwch_loop PASSWORD String.app]. rewrite Hl. cbn -[getwch_loop PASSWORD String.app].
  rewrite <- !app_assoc. reflexivity.
Qed.

Lemma existsb_split {A} (p : A -> bool) (l : list A) :
  existsb p l = true ->
  exists pre e post, l = pre ++ e :: post /\ existsb p pre = false /\ p e = true.
Proof.
  induction l as [|a l IH]; [discriminate|].
  cbn. destruct (p a) eqn:Ea.
  - intros _. exists [], a, l. auto.
  - cbn. intros H. destruct (IH H) as (pre & e & post & -> & Hpre & He).
    exists (a :: pre), e, post. cbn. rewrite Ea. auto.
Qed.

(** What a sample returned by the Windows branch is like. *)
Lemma fallback_windows_returned prompt c s :
  fst (record_keystrokes_fallback true prompt c) = Returned s ->
  exists l pre e post,
    lines c = l :: lines (snd (record_keystrokes_fallback true prompt c)) /\
    chars c = pre ++ e :: post /\ existsb is_enter pre = false /\ is_enter e = true /\
    chars (snd (record_keystrokes_fallback true prompt c)) = post /\
    ticks (snd (record_keystrokes_fallback true prompt c)) = ticks c + S (length pre) /\
    String.length (typed s) <= length pre /\
    length (press s) = String.length (typed s) /\
    rel s = List.map (fun t => F64.add t dwell_estimate) (press s) /\
    ((forall m n, m < n -> F64.leb (clock c m) (clock c n) = true) ->
     nondecreasing (press s) = true).
Proof.
  destruct (lines c) as [|l ls] eqn:Hl.
  { unfold record_keystrokes_fallback, mbind, C_bind, c_bind, put, input.
    cbn -[PASSWORD String.app]. rewrite Hl. discriminate. }
  rewrite (record_keystrokes_fallback_windows prompt c l ls Hl). cbv zeta.
  set (c' := Console ls (chars c) _ _ _ _ _).
  destruct (existsb is_enter (chars c)) eqn:He.
  - apply existsb_split in He as (pre & e & post & Hc & Hpre & He).
    assert (Hfuel : length (chars c') < S (length (chars c))) by (unfold c'; cbn; lia).
    destruct (getwch_loop_returns pre (S (length (chars c))) [] [] c' e post Hc Hpre He Hfuel)
      as (acc' & times' & Hrun & Hacc & Hlen & Hmono).
    rewrite Hrun. cbn. intros [= <-]. cbn.
    exists l, pre, e, post. repeat split; try assumption; try reflexivity.
    + rewrite length_string_of_list_ascii. exact Hacc.
    + rewrite length_string_of_list_ascii. apply Hlen. reflexivity.
    + intros Hclk. apply Hmono; [exact Hclk|reflexivity|constructor].
  - assert (Hfuel : length (chars c) < S (length (chars c))) by lia.
    rewrite (getwch_loop_waits (chars c) _ _ _ c' eq_refl He Hfuel).
    discriminate.
Qed.

(** X18.  The Windows branch of [record_keystrokes_fallback] needs one line on
    standard input and then reads keys up to the first Enter: with no line
    it raises EOFError; with no Enter among the keys it reads them all and
    waits; otherwise it returns, leaving the keys after that Enter unread,
    with as many press times as characters in the text and every release
    time the press time plus the estimate of 0.08 s. *)
Theorem fallback_windows_outcome prompt c :
  (lines c = [] -> fst (record_keystrokes_fallback true prompt c) = Raised EOFError) /\
  (forall l ls, lines c = l :: ls -> existsb is_enter (chars c) = false ->
     fst (record_keystrokes_fallback true prompt c) = Waiting /\
     chars (snd (record_keystrokes_fallback true prompt c)) = [] /\
     ticks (snd (record_keystrokes_fallback true prompt c)) = ticks c + length (chars c)) /\
  (forall l ls pre e post,
     lines c = l :: ls -> chars c = pre ++ e :: post ->
     existsb is_enter pre = false -> is_enter e = true ->
     exists s,
       fst (record_keystrokes_fallback true prompt c) = Returned s /\
       lines (snd (record_keystrokes_fallback true prompt c)) = ls /\
       chars (snd (record_keystrokes_fallback true prompt c)) = post /\
       ticks (snd (record_keystrokes_fallback true prompt c)) = ticks c + S (length pre) /\
       String.length (typed s) <= length pre /\
       length (press s) = String.length (typed s) /\
       rel s = List.map (fun t => F64.add t dwell_estimate) (press s)).
Proof.
  split; [|split].
  - intros Hl. unfold record_keystrokes_fallback, mbind, C_bind, c_bind, put, input.
    cbn -[PASSWORD String.app]. rewrite Hl. reflexivity.
  - intros l ls Hl He. rewrite (record_keystrokes_fallback_windows prompt c l ls Hl). cbv zeta.
    assert (Hfuel : length (chars c) < S (length (chars c))) by lia.
    rewrite (getwch_loop_waits (chars c) _ [] []
               (Console ls (chars c) (events c) (clock c) (ticks c)
                  (printed c ++ [prompt] ++ ["FALLBACK MODE (terminal-friendly)."]
                     ++ ["You can type the whole password continuously when prompted, then press Enter to finish."]
                     ++ ["Password to enter: '" +:+ PASSWORD +:+ "'"]
                     ++ ["Press Enter to begin recording..."]
                     ++ ["Recording... (type the password and press Enter when done)"])
                  (vars c)) eq_refl He Hfuel).
    cbn. auto.
  - intros l ls pre e post Hl Hc Hpre He.
    rewrite (record_keystrokes_fallback_windows prompt c l ls Hl). cbv zeta.
    set (c' := Console ls (chars c) _ _ _ _ _).
    assert (Hfuel : length (chars c') < S (length (chars c))) by (unfold c'; cbn; lia).
    destruct (getwch_loop_returns pre (S (length (chars c))) [] [] c' e post Hc Hpre He Hfuel)
      as (acc' & times' & Hrun & Hacc & Hlen & _).
    rewrite Hrun. cbn.
    eexists. split; [reflexivity|]. cbn. rewrite length_string_of_list_ascii.
    repeat split; try reflexivity; [exact Hacc|apply Hlen; reflexivity].
Qed.

(** X19.  A sample the Windows branch returns has a timestamp for every
    character of its text, so that [extract_features] fails on it only
    because the text is not the password. *)
Theorem fallback_windows_extracts prompt c s :
  fst (record_keystrokes_fallback true prompt c) = Returned s ->
  (extract_features (typed s) (press s) (rel s) = None <-> typed s <> PASSWORD).
Proof.
  intros Hs.
  destruct (fallback_windows_returned prompt c s Hs)
    as (l & pre & e & post & _ & _ & _ & _ & _ & _ & _ & Hlen & Hrel & _).
  rewrite extract_features_None. split; [|auto].
  intros [H|[H|H]]; [exact H| |]; intros Ht; rewrite Ht in Hlen.
  - lia.
  - rewrite Hrel, length_map in H. lia.
Qed.

Lemma fallback_windows_extracts_witness :
  exists s,
    fst (record_keystrokes_fallback true "Recording sample 1/3" typing_console) = Returned s /\
    (extract_features (typed s) (press s) (rel s) = None <-> typed s <> PASSWORD).
Proof.
  eexists. split; [vm_compute; reflexivity|].
  apply (fallback_windows_extracts "Recording sample 1/3" typing_console).
  vm_compute. reflexivity.
Defined.

(** X20.  When the clock never runs backwards, the press times the Windows
    branch returns are in nondecreasing order, Backspace or not. *)
Theorem fallback_windows_ordered prompt c s :
  (forall m n, m < n -> F64.leb (clock c m) (clock c n) = true) ->
  fst (record_keystrokes_fallback true prompt c) = Returned s ->
  nondecreasing (press s) = true.
Proof.
  intros Hclk Hs.
  destruct (fallback_windows_returned prompt c s Hs)
    as (l & pre & e & post & _ & _ & _ & _ & _ & _ & _ & _ & _ & Hmono).
  exact (Hmono Hclk).
Qed.

Lemma fallback_windows_ordered_witness :
  exists s,
    fst (record_keystrokes_fallback true "Recording sample 1/3" short_console) = Returned s /\
    nondecreasing (press s) = true.
Proof.
  eexists. split; [vm_compute; reflexivity|].
  apply (fallback_windows_ordered "Recording sample 1/3" short_console).
  - intros m n Hmn. destruct m as [|[|[|m]]], n as [|[|[|n]]]; try lia; reflexivity.
  - vm_compute. reflexivity.
Defined.

(** X21.  Typed without Enter or Backspace in between and closed by Enter, the
    keys are the text of the sample and the clock's successive readings its
    press times. *)
Theorem fallback_windows_plain prompt c l ls keys e post :
  lines c = l :: ls -> chars c = keys ++ e :: post ->
  existsb is_enter keys = false ->
  existsb (fun ch => Ascii.eqb ch backspace) keys = false ->
  is_enter e = true ->
  fst (record_keystrokes_fallback true prompt c) =
  Returned
    (Sample (String.string_of_list_ascii keys)
       (List.map (clock c) (seq (ticks c) (length keys)))
       (List.map (fun n => F64.add (clock c n) dwell_estimate) (seq (ticks c) (length keys)))).
Proof.
  intros Hl Hc Hk Hb He.
  rewrite (record_keystrokes_fallback_windows prompt c l ls Hl). cbv zeta.
  set (c' := Console ls (chars c) _ _ _ _ _).
  assert (Hfuel : length (chars c') < S (length (chars c))) by (unfold c'; cbn; lia).
  rewrite (getwch_loop_plain keys _ [] [] c' e post Hc Hk Hb He Hfuel).
  cbn. rewrite map_map. reflexivity.
Qed.

Lemma fallback_windows_plain_witness :
  fst (record_keystrokes_fallback true "Recording sample 1/3" typing_console) =
  Returned
    (Sample PASSWORD (List.map tenths (seq 0 6))
       (List.map (fun n => F64.add (tenths n) dwell_estimate) (seq 0 6))).
Proof.
  apply (fallback_windows_plain "Recording sample 1/3" typing_console ""%string []
           (String.list_ascii_of_string PASSWORD) carriage_return []);
    reflexivity.
Defined.

(** X22.  A key followed by Backspace leaves no trace in the sample: the
    Windows branch returns what it returns when the two keys are not
    pressed and the clock reads what it read. *)
Theorem fallback_windows_backspace prompt c pre x post :
  chars c = pre ++ x :: backspace :: post ->
  is_enter x = false -> Ascii.eqb x backspace = false ->
  fst (record_keystrokes_fallback true prompt c) =
  fst (record_keystrokes_fallback true prompt
         (Console (lines c) (pre ++ post) (events c)
            (fun n => if n <? ticks c + length pre then clock c n else clock c (n + 2))
            (ticks c) (printed c) (vars c))).
Proof.
  intros Hc Hx Hxb.
  remember (Console (lines c) (pre ++ post) (events c)
              (fun n => if n <? ticks c + length pre then clock c n else clock c (n + 2))
              (ticks c) (printed c) (vars c)) as c2 eqn:E2.
  assert (Hl2 : lines c2 = lines c) by (subst c2; reflexivity).
  assert (Hc2 : chars c2 = pre ++ post) by (subst c2; reflexivity).
  assert (Ht2 : ticks c2 = ticks c) by (subst c2; reflexivity).
  assert (Hk2 : forall n, clock c2 n =
                  if n <? ticks c + length pre then clock c n else clock c (n + 2))
    by (subst c2; reflexivity).
  clear E2.
  destruct (lines c) as [|l ls] eqn:Hl.
  { unfold record_keystrokes_fallback, mbind, C_bind, c_bind, put, input.
    cbn -[PASSWORD String.app]. rewrite Hl, Hl2. reflexivity. }
  rewrite (record_keystrokes_fallback_windows prompt c l ls Hl).
  rewrite (record_keystrokes_fallback_windows prompt c2 l ls Hl2). cbv zeta.
  match goal with
  | |- fst (match ?a with _ => _ end) = fst (match ?b with _ => _ end) =>
      assert (H : fst a = fst b); [|destruct a as [[r1| |] c1], b as [[r2| |] c3];
                                     cbn in H |- *; congruence]
  end.
  apply (getwch_loop_erase pre _ _ _ _ _ _ x post); cbn [chars clock ticks];
    try assumption; try lia.
  - intros k Hk. rewrite Hk2, Ht2.
    destruct (Nat.ltb_spec (ticks c + k) (ticks c + length pre)); [reflexivity|lia].
  - intros k Hk. rewrite Hk2, Ht2.
    destruct (Nat.ltb_spec (ticks c + k) (ticks c + length pre)); [lia|reflexivity].
Qed.

Lemma fallback_windows_backspace_witness :
  fst (record_keystrokes_fallback true "Recording sample 1/3" retyping_console) =
  fst (record_keystrokes_fallback true "Recording sample 1/3"
         (Console [""] (String.list_ascii_of_string PASSWORD ++ [carriage_return]) []
            (fun n => if n <? 2 then tenths n else tenths (n + 2)) 0 []
            (Globals [] [] [] false))).
Proof.
  apply (fallback_windows_backspace "Recording sample 1/3" retyping_console
           (String.list_ascii_of_string "se") (Ascii.ascii_of_nat 120)
           (String.list_ascii_of_string "cret" ++ [carriage_return]));
    reflexivity.
Defined.

(** ** The fallback recorder without msvcrt *)

Lemma append_empty s : "" +:+ s = s.
Proof. reflexivity. Qed.

Lemma append_String a s t : String a s +:+ t = String a (s +:+ t).
Proof. reflexivity. Qed.

Lemma concat_first_char l ins :
  String.concat "" (List.map first_char (l :: ins)) =
  first_char l +:+ String.concat "" (List.map first_char ins).
Proof.
  destruct ins as [|l' ins]; [destruct l; reflexivity|].
  cbn [List.map]. change (String.concat "" (first_char l :: first_char l' :: List.map first_char ins))
    with (first_char l +:+ "" +:+ String.concat "" (first_char l' :: List.map first_char ins)).
  reflexivity.
Qed.

Lemma length_concat_first_char ins :
  String.length (String.concat "" (List.map first_char ins)) <= length ins.
Proof.
  induction ins as [|l ins IH]; [cbn; lia|].
  rewrite concat_first_char.
  destruct l; cbn [first_char]; rewrite ?append_String, append_empty; cbn [String.length length]; lia.
Qed.

(** The joined first characters are a given text exactly when every line
    begins with the character at its place. *)
Lemma concat_first_char_eq ins : forall ex,
  length ins = length ex ->
  (String.concat "" (List.map first_char ins) = String.string_of_list_ascii ex <->
   Forall2 starts_with ins ex).
Proof.
  induction ins as [|l ins IH]; intros [|a ex] Hlen; try discriminate.
  - split; [constructor|reflexivity].
  - rewrite concat_first_char. cbn [String.string_of_list_ascii].
    injection Hlen as Hlen. split.
    + intros H. destruct l as [|b tail].
      * cbn [first_char] in H. rewrite append_empty in H.
        pose proof (length_concat_first_char ins) as Hle. rewrite H in Hle.
        cbn in Hle. rewrite length_string_of_list_ascii in Hle. lia.
      * cbn [first_char] in H. rewrite append_String, append_empty in H. injection H as -> H.
        constructor; [exists tail; reflexivity|]. apply IH; assumption.
    + intros H. inversion H as [|? ? ? ? [tail ->] Hrest]; subst.
      cbn [first_char]. rewrite append_String, append_empty. f_equal. apply IH; assumption.
Qed.

Lemma prompt_loop_runs expected : forall prev acc times c ins rest,
  lines c = ins ++ rest -> length ins = length expected ->
  exists times',
    prompt_loop expected prev acc times c =
      (Returned (acc ++ List.map first_char ins, times'),
       Console rest (chars c) (events c) (clock c) (ticks c + length expected)
         (printed c ++
            List.map (fun a => "Type '" +:+ String a "" +:+ "' then press Enter: ") expected)
         (vars c)) /\
    length times' = length times + length expected.
Proof.
  induction expected as [|a expected IH]; intros prev acc times c ins rest Hl Hlen.
  - destruct ins; [|discriminate]. cbn in Hl. exists times. split; [|cbn; lia].
    cbn. unfold mret, C_ret, c_ret. rewrite !app_nil_r, Nat.add_0_r, <- Hl.
    destruct c; reflexivity.
  - destruct ins as [|l ins]; [discriminate|]. injection Hlen as Hlen.
    cbn [prompt_loop]. unfold mbind, C_bind, c_bind, input, time_time.
    rewrite Hl. cbn -[prompt_loop String.app].
    destruct (IH (clock c (ticks c)) (acc ++ [first_char l])
                (times ++ [F64.sub (clock c (ticks c)) prev])
                (Console (ins ++ rest) (chars c) (events c) (clock c) (S (ticks c))
                   (printed c ++ ["Type '" +:+ String a "" +:+ "' then press Enter: "])
                   (vars c)) ins rest eq_refl Hlen) as (times' & Hrun & Hlen').
    exists times'. split.
    + rewrite Hrun. cbn -[String.app]. rewrite <- !app_assoc. cbn -[String.app].
      repeat f_equal. lia.
    + rewrite Hlen', length_app. cbn. lia.
Qed.

Lemma prompt_loop_eof expected : forall prev acc times c,
  length (lines c) < length expected ->
  exists c', prompt_loop expected prev acc times c = (Raised EOFError, c') /\ lines c' = [].
Proof.
  induction expected as [|a expected IH]; intros prev acc times c Hlen; [cbn in Hlen; lia|].
  cbn [prompt_loop]. unfold mbind, C_bind, c_bind, input, time_time.
  destruct (lines c) as [|l ls] eqn:Hl.
  - eexists. split; [reflexivity|reflexivity].
  - cbn -[prompt_loop String.app]. apply IH. cbn in *. lia.
Qed.

Lemma cumulate_spec times : forall cumulative p r,
  r = List.map (fun t => F64.add t dwell_estimate) p ->
  length (fst (cumulate times cumulative p r)) = length p + length times /\
  snd (cumulate times cumulative p r) =
    List.map (fun t => F64.add t dwell_estimate) (fst (cumulate times cumulative p r)).
Proof.
  induction times as [|interval times IH]; intros cumulative p r Hr.
  - cbn. split; [lia|exact Hr].
  - cbn [cumulate].
    destruct (IH (F64.add cumulative interval) (p ++ [F64.add cumulative interval])
                (r ++ [F64.add (F64.add cumulative interval) dwell_estimate])) as [H1 H2].
    { rewrite Hr, map_app. reflexivity. }
    split; [rewrite H1, length_app; cbn; lia|exact H2].
Qed.

(** The branch without msvcrt as one call of each loop. *)
Lemma record_keystrokes_fallback_prompted prompt c l0 l1 ls :
  lines c = l0 :: l1 :: ls ->
  record_keystrokes_fallback false prompt c =
  let c' :=
    Console ls (chars c) (events c) (clock c) (S (ticks c))
      (printed c ++ [prompt] ++ ["FALLBACK MODE (terminal-friendly)."]
         ++ ["You can type the whole password continuously when prompted, then press Enter to finish."]
         ++ ["Password to enter: '" +:+ PASSWORD +:+ "'"]
         ++ ["Press Enter to begin recording..."]
         ++ ["msvcrt not available — using per-character Enter fallback."]
         ++ ["Press Enter to begin the per-character recording..."])
      (vars c) in
  match prompt_loop (String.list_ascii_of_string PASSWORD) (clock c (ticks c)) [] [] c'
    return (outcome sample * console)%type with
  | (Returned r, c'') =>
      let pr := cumulate (snd r) (clock c'' (ticks c'')) [] [] in
      (Returned (Sample (String.concat "" (fst r)) (fst pr) (snd pr)),
       Console (lines c'') (chars c'') (events c'') (clock c'') (S (ticks c'')) (printed c'')
         (vars c''))
  | (Raised e, c'') => (Raised e, c'')
  | (Waiting, c'') => (Waiting, c'')
  end.
Proof.
  intros Hl. unfold record_keystrokes_fallback.
  unfold mbind, C_bind, c_bind, mret, C_ret, c_ret, put, input, time_time.
  cbn -[prompt_loop cumulate PASSWORD String.app]. rewrite Hl.
  cbn -[prompt_loop cumulate PASSWORD String.app].
  rewrite <- !app_assoc. cbn -[prompt_loop cumulate PASSWORD String.app].
  destruct (prompt_loop _ _ _ _ _) as [[r| |] c'']; reflexivity.
Qed.

Lemma record_keystrokes_fallback_eof (windows : bool) prompt c :
  length (lines c) < (if windows then 1 else 2) ->
  fst (record_keystrokes_fallback windows prompt c) = Raised EOFError /\
  lines (snd (record_keystrokes_fallback windows prompt c)) = [].
Proof.
  intros Hlen. unfold record_keystrokes_fallback.
  unfold mbind, C_bind, c_bind, mret, C_ret, c_ret, put, input, time_time.
  cbn -[prompt_loop cumulate getwch_loop PASSWORD String.app].
  destruct (lines c) as [|l0 [|l1 ls]] eqn:Hl.
  - split; reflexivity.
  - destruct windows; [cbn in Hlen; lia|]. split; reflexivity.
  - destruct windows; cbn in Hlen; lia.
Qed.

(** X23.  Without msvcrt [record_keystrokes_fallback] reads two lines and then
    one line for each character of the password, and takes the first
    character of each: with fewer lines it raises EOFError once they are
    used up; otherwise it returns the joined first characters with one
    press and one release time for each character of the password, whatever
    was typed, every release time being the press time plus 0.08 s. *)
Theorem fallback_prompted_outcome prompt c :
  (length (lines c) < String.length PASSWORD + 2 ->
     fst (record_keystrokes_fallback false prompt c) = Raised EOFError /\
     lines (snd (record_keystrokes_fallback false prompt c)) = []) /\
  (forall l0 l1 ins rest,
     lines c = l0 :: l1 :: ins ++ rest -> length ins = String.length PASSWORD ->
     exists s,
       fst (record_keystrokes_fallback false prompt c) = Returned s /\
       lines (snd (record_keystrokes_fallback false prompt c)) = rest /\
       ticks (snd (record_keystrokes_fallback false prompt c)) =
         ticks c + String.length PASSWORD + 2 /\
       typed s = String.concat "" (List.map first_char ins) /\
       length (press s) = String.length PASSWORD /\
       rel s = List.map (fun t => F64.add t dwell_estimate) (press s)).
Proof.
  assert (Hk : String.length PASSWORD = length (String.list_ascii_of_string PASSWORD))
    by reflexivity.
  split.
  - intros Hlen.
    destruct (lines c) as [|l0 [|l1 ls]] eqn:Hl;
      [apply record_keystrokes_fallback_eof; rewrite Hl; cbn; lia ..|].
    rewrite (record_keystrokes_fallback_prompted prompt c l0 l1 ls Hl). cbv zeta.
    match goal with
    | |- context [prompt_loop ?e ?p ?a ?t ?c0] =>
        destruct (prompt_loop_eof e p a t c0) as (c' & Hrun & Hc')
    end.
    { cbn [lines]. rewrite <- Hk. cbn [length] in Hlen. lia. }
    rewrite Hrun. split; [reflexivity|exact Hc'].
  - intros l0 l1 ins rest Hl Hlen.
    rewrite (record_keystrokes_fallback_prompted prompt c l0 l1 _ Hl). cbv zeta.
    match goal with
    | |- context [prompt_loop ?e ?p ?a ?t ?c0] =>
        destruct (prompt_loop_runs e p a t c0 ins rest eq_refl ltac:(rewrite Hlen; exact Hk))
          as (times' & Hrun & Hlen')
    end.
    rewrite Hrun. cbn -[PASSWORD String.app prompt_loop cumulate].
    eexists. split; [reflexivity|]. cbn -[PASSWORD String.app prompt_loop cumulate].
    match goal with
    | |- context [cumulate times' ?b [] []] =>
        destruct (cumulate_spec times' b [] [] eq_refl) as [H1 H2]
    end.
    repeat split.
    + rewrite <- Hk. lia.
    + rewrite H1, Hlen'. cbn [length]. rewrite <- Hk. lia.
    + exact H2.
Qed.

(** X24.  Without msvcrt the sample always has its timestamps, and only the
    first character of each line counts: [extract_features] succeeds on the
    sample exactly when every line typed begins with the character of the
    password asked for, whatever follows it on the line. *)
Theorem fallback_prompted_extracts prompt c l0 l1 ins rest s :
  lines c = l0 :: l1 :: ins ++ rest -> length ins = String.length PASSWORD ->
  fst (record_keystrokes_fallback false prompt c) = Returned s ->
  ((exists v, extract_features (typed s) (press s) (rel s) = Some v) <->
   Forall2 starts_with ins (String.list_ascii_of_string PASSWORD)).
Proof.
  intros Hl Hlen Hs.
  assert (Hk : String.length PASSWORD = length (String.list_ascii_of_string PASSWORD))
    by reflexivity.
  rewrite (record_keystrokes_fallback_prompted prompt c l0 l1 _ Hl) in Hs. cbv zeta in Hs.
  match type of Hs with
  | context [prompt_loop ?e ?p ?a ?t ?c0] =>
      destruct (prompt_loop_runs e p a t c0 ins rest eq_refl ltac:(rewrite Hlen; exact Hk))
        as (times' & Hrun & Hlen')
  end.
  rewrite Hrun in Hs. cbn -[PASSWORD String.app prompt_loop cumulate] in Hs.
  injection Hs as <-. cbn [typed press rel].
  match goal with
  | |- context [cumulate times' ?b [] []] =>
      destruct (cumulate_spec times' b [] [] eq_refl) as [H1 H2];
      generalize dependent (cumulate times' b [] [])
  end.
  intros [p r] H1 H2. cbn [fst snd] in *.
  rewrite <- (concat_first_char_eq ins _ ltac:(rewrite Hlen; exact Hk)).
  rewrite String.string_of_list_ascii_of_string.
  assert (Hp : length p = String.length PASSWORD) by (rewrite H1, Hlen'; cbn [length]; lia).
  split.
  - intros [v Hv]. destruct (String.string_dec (String.concat "" (List.map first_char ins)) PASSWORD)
      as [E|E]; [exact E|].
    assert (Hn : extract_features (String.concat "" (List.map first_char ins)) p r = None).
    { apply extract_features_None. left. exact E. }
    congruence.
  - intros E.
    destruct (extract_features (String.concat "" (List.map first_char ins)) p r) as [v|] eqn:Ev;
      [exists v; reflexivity|].
    apply extract_features_None in Ev as [H|[H|H]]; [contradiction|lia|].
    rewrite H2, length_map in H. lia.
Qed.

Lemma fallback_prompted_extracts_witness :
  exists s,
    fst (record_keystrokes_fallback false "Recording sample 1/3" prompted_console)
      = Returned s /\
    ((exists v, extract_features (typed s) (press s) (rel s) = Some v) <->
     Forall2 starts_with ["s"; "exx"; "c"; "r"; "e"; "t"]
       (String.list_ascii_of_string PASSWORD)).
Proof.
  eexists. split; [vm_compute; reflexivity|].
  apply (fallback_prompted_extracts "Recording sample 1/3" prompted_console "" ""
           ["s"; "exx"; "c"; "r"; "e"; "t"] ["more"]);
    [reflexivity|reflexivity|vm_compute; reflexivity].
Defined.

(** ** The pynput recorder *)

Lemma listen_nil fuel c : events c = [] -> listen fuel c = (Waiting, c).
Proof.
  intros H. destruct fuel as [|fuel]; [reflexivity|].
  cbn [listen]. unfold mbind, C_bind, c_bind, next_event. rewrite H. reflexivity.
Qed.

Lemma listen_cons fuel c ev rest :
  events c = ev :: rest -> recording (vars c) = true ->
  listen (S fuel) c =
  let g := vars c in
  match ev with
  | Press k =>
      listen fuel
        (Console (lines c) (chars c) rest (clock c) (S (ticks c)) (printed c)
           (Globals (press_times g ++ [clock c (ticks c)]) (release_times g)
              (pressed_sequence g ++ [key_text k]) true))
  | Release k =>
      let c' :=
        Console (lines c) (chars c) rest (clock c) (S (ticks c)) (printed c)
          (Globals (press_times g) (release_times g ++ [clock c (ticks c)])
             (pressed_sequence g) true) in
      if is_enter_key k then (Returned tt, c') else listen fuel c'
  end.
Proof.
  intros H Hr. cbn [listen].
  unfold mbind, C_bind, c_bind, next_event, on_press, on_release, get_vars, set_vars, time_time,
    mret, C_ret, c_ret.
  rewrite H. cbn -[listen]. destruct ev as [k|k]; unfold mbind, C_bind, c_bind; cbn -[listen];
    rewrite Hr; cbn -[listen].
  - reflexivity.
  - destruct (is_enter_key k); reflexivity.
Qed.

Lemma listen_runs pre : forall fuel c ev post,
  events c = pre ++ ev :: post ->
  existsb is_enter_release pre = false -> is_enter_release ev = true ->
  recording (vars c) = true -> length (events c) < fuel ->
  listen fuel c =
    (Returned tt,
     Console (lines c) (chars c) post (clock c) (ticks c + S (length pre)) (printed c)
       (Globals
          (press_times (vars c) ++ List.map (clock c) (stamps is_press (ticks c) pre))
          (release_times (vars c)
             ++ List.map (clock c) (stamps is_release (ticks c) (pre ++ [ev])))
          (pressed_sequence (vars c) ++ List.map key_text (pressed pre))
          true)).
Proof.
  induction pre as [|e pre IH]; intros fuel c ev post Hc Hpre Hev Hr Hfuel.
  - destruct fuel as [|fuel]; [lia|].
    rewrite (listen_cons _ _ _ _ Hc Hr). cbv zeta.
    destruct ev as [k|k]; [discriminate|]. cbn in Hev. rewrite Hev.
    cbn. rewrite !app_nil_r. repeat f_equal. lia.
  - destruct fuel as [|fuel]; [lia|].
    cbn in Hpre. apply orb_false_iff in Hpre as [He Hpre].
    rewrite (listen_cons _ _ _ _ Hc Hr). cbv zeta.
    assert (Hfuel' : length (pre ++ ev :: post) < fuel).
    { rewrite Hc in Hfuel. cbn in Hfuel. lia. }
    destruct e as [k|k].
    + match goal with
      | |- listen fuel ?c0 = _ => rewrite (IH fuel c0 ev post eq_refl Hpre Hev eq_refl Hfuel')
      end.
      cbn. rewrite <- !app_assoc. cbn. repeat f_equal. lia.
    + cbn in He. rewrite He.
      match goal with
      | |- listen fuel ?c0 = _ => rewrite (IH fuel c0 ev post eq_refl Hpre Hev eq_refl Hfuel')
      end.
      cbn. rewrite <- !app_assoc. cbn. repeat f_equal. lia.
Qed.

Lemma listen_waits evs : forall fuel c,
  events c = evs -> existsb is_enter_release evs = false ->
  recording (vars c) = true -> length evs < fuel ->
  exists c',
    listen fuel c = (Waiting, c') /\ events c' = [] /\ recording (vars c') = true /\
    lines c' = lines c /\ ticks c' = ticks c + length evs.
Proof.
  induction evs as [|e evs IH]; intros fuel c Hc He Hr Hfuel.
  - rewrite (listen_nil _ _ Hc). exists c. cbn. repeat split; auto; lia.
  - destruct fuel as [|fuel]; [cbn in Hfuel; lia|].
    cbn in He. apply orb_false_iff in He as [He Hevs].
    rewrite (listen_cons _ _ _ _ Hc Hr). cbv zeta. cbn in Hfuel.
    destruct e as [k|k].
    + match goal with
      | |- exists c', listen fuel ?c0 = _ /\ _ =>
          destruct (IH fuel c0 eq_refl Hevs eq_refl ltac:(lia)) as (c' & Hrun & H1 & H2 & H3 & H4)
      end.
      exists c'. cbn in H3, H4. repeat split; auto. cbn. lia.
    + cbn in He. rewrite He.
      match goal with
      | |- exists c', listen fuel ?c0 = _ /\ _ =>
          destruct (IH fuel c0 eq_refl Hevs eq_refl ltac:(lia)) as (c' & Hrun & H1 & H2 & H3 & H4)
      end.
      exists c'. cbn in H3, H4. repeat split; auto. cbn. lia.
Qed.

(** [join_chars] keeps the characters and drops the special keys; a key
    without character makes it raise. *)
Lemma join_chars_None keys :
  In (KeyCode None) keys -> join_chars (List.map key_text keys) = Raise TypeError.
Proof.
  induction keys as [|k keys IH]; [intros []|].
  intros [->|H]; [reflexivity|].
  cbn. destruct (key_text k); [|reflexivity]. rewrite (IH H). reflexivity.
Qed.

Lemma length_append s t : String.length (s +:+ t) = String.length s + String.length t.
Proof. induction s as [|a s IH]; [reflexivity|]. rewrite append_String. cbn. rewrite IH. lia. Qed.

Lemma join_chars_Ok keys :
  ~ In (KeyCode None) keys ->
  join_chars (List.map key_text keys) = Ok (String.string_of_list_ascii (typed_chars keys)).
Proof.
  induction keys as [|k keys IH]; [reflexivity|].
  intros Hn. assert (Hk : ~ In (KeyCode None) keys) by (intros H; apply Hn; right; exact H).
  specialize (IH Hk). destruct k as [[a|]|name].
  - cbn. rewrite IH. reflexivity.
  - exfalso. apply Hn. left. reflexivity.
  - cbn [List.map key_text join_chars typed_chars]. rewrite IH.
    replace (String.length ("Key." +:+ name) =? 1) with false; [reflexivity|].
    symmetry. apply Nat.eqb_neq. rewrite length_append. cbn. lia.
Qed.

(** [record_keystrokes_pynput] as one call of the listener. *)
Lemma record_keystrokes_pynput_listen prompt c l ls :
  lines c = l :: ls ->
  record_keystrokes_pynput prompt c =
  let c' :=
    Console ls (chars c) (events c) (clock c) (ticks c)
      (printed c ++ [prompt]
         ++ ["Type the password then press Enter. Password must be exactly: '" +:+ PASSWORD
               +:+ "'"]
         ++ ["Press Enter to start recording in the background..."])
      (Globals [] [] [] true) in
  match listen (S (length (events c))) c' return (outcome sample * console)%type with
  | (Returned _, c'') =>
      let g := vars c'' in
      let c3 :=
        Console (lines c'') (chars c'') (events c'') (clock c'') (ticks c'') (printed c'')
          (Globals (press_times g) (release_times g) (pressed_sequence g) false) in
      match join_chars (pressed_sequence g) with
      | Raise e => (Raised e, c3)
      | Ok t => (Returned (Sample (strip_newline t) (press_times g) (release_times g)), c3)
      end
  | (Raised e, c'') => (Raised e, c'')
  | (Waiting, c'') => (Waiting, c'')
  end.
Proof.
  intros Hl. unfold record_keystrokes_pynput.
  unfold mbind, C_bind, c_bind, mret, C_ret, c_ret, put, input, get_vars, set_vars, get_console,
    raise.
  cbn -[listen join_chars strip_newline PASSWORD String.app]. rewrite Hl.
  cbn -[listen join_chars strip_newline PASSWORD String.app].
  rewrite <- !app_assoc. cbn -[listen join_chars strip_newline PASSWORD String.app].
  destruct (listen _ _) as [[[]| |] c'']; cbn -[listen join_chars strip_newline PASSWORD String.app];
    try reflexivity.
  destruct (join_chars _); reflexivity.
Qed.

(** The call when Enter is released. *)
Lemma record_keystrokes_pynput_stops prompt c l ls pre ev post :
  lines c = l :: ls -> events c = pre ++ ev :: post ->
  existsb is_enter_release pre = false -> is_enter_release ev = true ->
  events (snd (record_keystrokes_pynput prompt c)) = post /\
  recording (vars (snd (record_keystrokes_pynput prompt c))) = false /\
  (In (KeyCode None) (pressed pre) ->
     fst (record_keystrokes_pynput prompt c) = Raised TypeError) /\
  (~ In (KeyCode None) (pressed pre) ->
     fst (record_keystrokes_pynput prompt c) =
     Returned
       (Sample (strip_newline (String.string_of_list_ascii (typed_chars (pressed pre))))
          (List.map (clock c) (stamps is_press (ticks c) pre))
          (List.map (clock c) (stamps is_release (ticks c) (pre ++ [ev]))))).
Proof.
  intros Hl Hc Hpre Hev.
  rewrite (record_keystrokes_pynput_listen prompt c l ls Hl). cbv zeta.
  match goal with
  | |- context [listen ?f ?c0] =>
      rewrite (listen_runs pre f c0 ev post Hc Hpre Hev eq_refl ltac:(cbn; lia))
  end.
  cbn -[join_chars strip_newline].
  split; [|split; [|split]].
  - destruct (join_chars _); reflexivity.
  - destruct (join_chars _); reflexivity.
  - intros Hn. rewrite (join_chars_None _ Hn). reflexivity.
  - intros Hn. rewrite (join_chars_Ok _ Hn). reflexivity.
Qed.

(** X25.  [record_keystrokes_pynput] empties the globals, needs one line on
    standard input and then listens up to the first release of Enter: with
    no line it raises EOFError; with no such release it waits, still
    recording; otherwise it stops there with [recording] off, leaves the
    later events undelivered, and raises TypeError when a key without
    character was pressed, or else returns the characters pressed (less a
    final newline), the clock's readings at the presses and its readings at
    the releases, that of Enter included.  What the globals held before the
    call plays no part. *)
Theorem pynput_outcome prompt c :
  (lines c = [] ->
     fst (record_keystrokes_pynput prompt c) = Raised EOFError /\
     vars (snd (record_keystrokes_pynput prompt c)) = Globals [] [] [] (recording (vars c))) /\
  (forall l ls, lines c = l :: ls -> existsb is_enter_release (events c) = false ->
     fst (record_keystrokes_pynput prompt c) = Waiting /\
     events (snd (record_keystrokes_pynput prompt c)) = [] /\
     recording (vars (snd (record_keystrokes_pynput prompt c))) = true) /\
  (forall l ls pre ev post,
     lines c = l :: ls -> events c = pre ++ ev :: post ->
     existsb is_enter_release pre = false -> is_enter_release ev = true ->
     events (snd (record_keystrokes_pynput prompt c)) = post /\
     recording (vars (snd (record_keystrokes_pynput prompt c))) = false /\
     (In (KeyCode None) (pressed pre) ->
        fst (record_keystrokes_pynput prompt c) = Raised TypeError) /\
     (~ In (KeyCode None) (pressed pre) ->
        fst (record_keystrokes_pynput prompt c) =
        Returned
          (Sample (strip_newline (String.string_of_list_ascii (typed_chars (pressed pre))))
             (List.map (clock c) (stamps is_press (ticks c) pre))
             (List.map (clock c) (stamps is_release (ticks c) (pre ++ [ev])))))).
Proof.
  split; [|split].
  - intros Hl. unfold record_keystrokes_pynput.
    unfold mbind, C_bind, c_bind, mret, C_ret, c_ret, put, input, get_vars, set_vars.
    cbn -[listen join_chars strip_newline PASSWORD String.app]. rewrite Hl.
    split; reflexivity.
  - intros l ls Hl He. rewrite (record_keystrokes_pynput_listen prompt c l ls Hl). cbv zeta.
    match goal with
    | |- context [listen ?f ?c0] =>
        destruct (listen_waits (events c) f c0 eq_refl He eq_refl ltac:(lia))
          as (c' & Hrun & H1 & H2 & _)
    end.
    rewrite Hrun. auto.
  - intros l ls pre ev post Hl Hc Hpre Hev.
    exact (record_keystrokes_pynput_stops prompt c l ls pre ev post Hl Hc Hpre Hev).
Qed.

Lemma length_stamps p evs : forall n, length (stamps p n evs) = length (List.filter p evs).
Proof.
  induction evs as [|ev evs IH]; intros n; [reflexivity|].
  cbn. destruct (p ev); cbn; rewrite IH; reflexivity.
Qed.

Lemma length_pressed evs : length (pressed evs) = length (List.filter is_press evs).
Proof.
  induction evs as [|[k|k] evs IH]; [reflexivity| |]; cbn; rewrite IH; reflexivity.
Qed.

Lemma length_typed_chars keys : length (typed_chars keys) <= length keys.
Proof.
  induction keys as [|[[a|]|name] keys IH]; cbn; lia.
Qed.

Lemma length_list_ascii_of_string s :
  length (String.list_ascii_of_string s) = String.length s.
Proof. induction s as [|a s IH]; [reflexivity|]. cbn. rewrite IH. reflexivity. Qed.

Lemma length_strip_newline t : String.length (strip_newline t) <= String.length t.
Proof.
  unfold strip_newline.
  destruct (rev (String.list_ascii_of_string t)) as [|a rest] eqn:E; [lia|].
  destruct (Ascii.eqb a carriage_return || Ascii.eqb a line_feed); [|lia].
  rewrite length_string_of_list_ascii, length_rev.
  rewrite <- (length_list_ascii_of_string t), <- (length_rev (String.list_ascii_of_string t)), E.
  cbn. lia.
Qed.

(** X26.  Under pynput the press times never fall short of the text, the
    release times can: a sample whose text is the password is refused by
    [extract_features] exactly when fewer keys than the password has
    characters were released up to and including Enter. *)
Theorem pynput_extracts prompt c l ls pre ev post s :
  lines c = l :: ls -> events c = pre ++ ev :: post ->
  existsb is_enter_release pre = false -> is_enter_release ev = true ->
  fst (record_keystrokes_pynput prompt c) = Returned s -> typed s = PASSWORD ->
  (extract_features (typed s) (press s) (rel s) = None <->
   S (length (List.filter is_release pre)) < String.length PASSWORD).
Proof.
  intros Hl Hc Hpre Hev Hs Ht.
  destruct (record_keystrokes_pynput_stops prompt c l ls pre ev post Hl Hc Hpre Hev)
    as (_ & _ & Hnone & Hsome).
  destruct (In_dec (fun a b : key => ltac:(decide equality; [decide equality; apply Ascii.ascii_dec|apply String.string_dec]) : {a = b} + {a <> b})
              (KeyCode None) (pressed pre)) as [Hin|Hin].
  { rewrite (Hnone Hin) in Hs. discriminate. }
  rewrite (Hsome Hin) in Hs. injection Hs as <-. cbn [typed press rel] in *.
  assert (Hp : String.length PASSWORD <= length (List.map (clock c) (stamps is_press (ticks c) pre))).
  { rewrite <- Ht at 1. etransitivity; [apply length_strip_newline|].
    rewrite length_string_of_list_ascii, length_map, length_stamps, <- length_pressed.
    apply length_typed_chars. }
  assert (Hr : length (List.map (clock c) (stamps is_release (ticks c) (pre ++ [ev])))
               = S (length (List.filter is_release pre))).
  { rewrite length_map, length_stamps, List.filter_app, length_app.
    destruct ev as [k|k]; [discriminate|]. cbn. lia. }
  rewrite extract_features_None, Hr. split.
  - intros [H|[H|H]]; [contradiction|lia|exact H].
  - auto.
Qed.

Lemma pynput_extracts_witness :
  exists s,
    fst (record_keystrokes_pynput "Recording sample 1/3" rollover_console) = Returned s /\
    typed s = PASSWORD /\
    (extract_features (typed s) (press s) (rel s) = None <-> 5 < String.length PASSWORD).
Proof.
  eexists. split; [vm_compute; reflexivity|]. split; [vm_compute; reflexivity|].
  apply (pynput_extracts "Recording sample 1/3" rollover_console "" []
           (flat_map (fun a => [Press (KeyCode (Some a)); Release (KeyCode (Some a))])
              (String.list_ascii_of_string "secr")
            ++ [Press (KeyCode (Some (Ascii.ascii_of_nat 101)));
                Press (KeyCode (Some (Ascii.ascii_of_nat 116)));
                Press (Key "enter")])
           (Release (Key "enter"))
           [Release (KeyCode (Some (Ascii.ascii_of_nat 101)));
            Release (KeyCode (Some (Ascii.ascii_of_nat 116)))]);
    vm_compute; reflexivity.
Defined.

(** Facts about a text typed key by key. *)
Lemma stamps_key_by_key text : forall n,
  stamps is_press n
    (flat_map (fun a => [Press (KeyCode (Some a)); Release (KeyCode (Some a))]) text
       ++ [Press (Key "enter")]) =
    List.map (fun i => n + 2 * i) (seq 0 (S (length text))) /\
  stamps is_release n
    ((flat_map (fun a => [Press (KeyCode (Some a)); Release (KeyCode (Some a))]) text
        ++ [Press (Key "enter")]) ++ [Release (Key "enter")]) =
    List.map (fun i => n + 2 * i + 1) (seq 0 (S (length text))).
Proof.
  induction text as [|a text IH]; intros n.
  - cbn. split; repeat f_equal; lia.
  - destruct (IH (S (S n))) as [H1 H2].
    cbn [flat_map app stamps is_press is_release negb length].
    rewrite H1, H2.
    change (seq 0 (S (S (length text)))) with (0 :: seq 1 (S (length text))).
    rewrite <- seq_shift, !map_cons, !map_map.
    split; f_equal; try lia; apply map_ext; intros i; lia.
Qed.

Lemma pressed_key_by_key text :
  existsb is_enter_release
    (flat_map (fun a => [Press (KeyCode (Some a)); Release (KeyCode (Some a))]) text
       ++ [Press (Key "enter")]) = false /\
  ~ In (KeyCode None)
      (pressed (flat_map (fun a => [Press (KeyCode (Some a)); Release (KeyCode (Some a))]) text
                  ++ [Press (Key "enter")])) /\
  typed_chars
    (pressed (flat_map (fun a => [Press (KeyCode (Some a)); Release (KeyCode (Some a))]) text
                ++ [Press (Key "enter")])) = text.
Proof.
  induction text as [|a text (IH1 & IH2 & IH3)].
  - cbn. split; [reflexivity|]. split; [|reflexivity]. intros [H|[]]; discriminate.
  - cbn [flat_map app existsb is_enter_release is_enter_key pressed typed_chars orb].
    split; [exact IH1|]. split; [|rewrite IH3; reflexivity].
    intros [H|H]; [discriminate|contradiction].
Qed.

(** X27.  When every key is released before the next is pressed and Enter
    closes the text, [record_keystrokes_pynput] returns the text with the
    clock's readings at the presses and at the releases, taken in turn:
    one more of each than the text has characters, those of Enter being the
    last. *)
Theorem pynput_key_by_key prompt c l ls text post :
  lines c = l :: ls -> events c = key_by_key text ++ post ->
  fst (record_keystrokes_pynput prompt c) =
  Returned
    (Sample (strip_newline (String.string_of_list_ascii text))
       (List.map (fun i => clock c (ticks c + 2 * i)) (seq 0 (S (length text))))
       (List.map (fun i => clock c (ticks c + 2 * i + 1)) (seq 0 (S (length text))))).
Proof.
  intros Hl Hc.
  destruct (pressed_key_by_key text) as (H1 & H2 & H3).
  destruct (stamps_key_by_key text (ticks c)) as [Hp Hr].
  unfold key_by_key in Hc.
  change [Press (Key "enter"); Release (Key "enter")]
    with ([Press (Key "enter")] ++ [Release (Key "enter")]) in Hc.
  rewrite app_assoc, <- app_assoc in Hc. cbn [app] in Hc.
  destruct (record_keystrokes_pynput_stops prompt c l ls _ _ post Hl Hc H1 eq_refl)
    as (_ & _ & _ & Hsome).
  rewrite (Hsome H2), H3, Hp, Hr, !map_map. reflexivity.
Qed.

Lemma pynput_key_by_key_witness :
  fst (record_keystrokes_pynput "Recording sample 1/3" listening_console) =
  Returned
    (Sample PASSWORD
       (List.map (fun i => tenths (2 * i)) (seq 0 7))
       (List.map (fun i => tenths (2 * i + 1)) (seq 0 7))).
Proof.
  apply (pynput_key_by_key "Recording sample 1/3" listening_console "" []
           (String.list_ascii_of_string PASSWORD) []); reflexivity.
Defined.

(** The sample when the password is typed key by key. *)
Lemma record_keystrokes_pynput_password prompt c l ls post :
  lines c = l :: ls ->
  events c = key_by_key (String.list_ascii_of_string PASSWORD) ++ post ->
  fst (record_keystrokes_pynput prompt c) =
  Returned
    (Sample PASSWORD
       (List.map (fun i => clock c (ticks c + 2 * i)) (seq 0 (S (String.length PASSWORD))))
       (List.map (fun i => clock c (ticks c + 2 * i + 1)) (seq 0 (S (String.length PASSWORD))))).
Proof.
  intros Hl Hc.
  destruct (pressed_key_by_key (String.list_ascii_of_string PASSWORD)) as (H1 & H2 & H3).
  destruct (stamps_key_by_key (String.list_ascii_of_string PASSWORD) (ticks c)) as [Hp Hr].
  unfold key_by_key in Hc.
  change [Press (Key "enter"); Release (Key "enter")]
    with ([Press (Key "enter")] ++ [Release (Key "enter")]) in Hc.
  rewrite app_assoc, <- app_assoc in Hc. cbn [app] in Hc.
  destruct (record_keystrokes_pynput_stops prompt c l ls _ _ post Hl Hc H1 eq_refl)
    as (_ & _ & _ & Hsome).
  rewrite (Hsome H2), H3, Hp, Hr, !map_map. reflexivity.
Qed.

(** X28.  The password typed key by key under pynput always yields features:
    the dwell of a key is the clock's reading at its release less that at
    its press, the flight to it the reading at its press less that at the
    press before. *)
Theorem pynput_password_features prompt c l ls post :
  lines c = l :: ls ->
  events c = key_by_key (String.list_ascii_of_string PASSWORD) ++ post ->
  exists s v,
    fst (record_keystrokes_pynput prompt c) = Returned s /\
    typed s = PASSWORD /\
    extract_features (typed s) (press s) (rel s) = Some v /\
    length v = 2 * String.length PASSWORD - 1 /\
    (forall i, i < String.length PASSWORD ->
       v !! i = Some (F64.sub (clock c (ticks c + 2 * i + 1)) (clock c (ticks c + 2 * i)))) /\
    (forall i, 1 <= i < String.length PASSWORD ->
       v !! (String.length PASSWORD + i - 1) =
         Some (F64.sub (clock c (ticks c + 2 * i)) (clock c (ticks c + 2 * (i - 1))))).
Proof.
  intros Hl Hc.
  pose proof (record_keystrokes_pynput_password prompt c l ls post Hl Hc) as Hs.
  eexists. 
  destruct (extract_features PASSWORD
              (List.map (fun i => clock c (ticks c + 2 * i)) (seq 0 (S (String.length PASSWORD))))
              (List.map (fun i => clock c (ticks c + 2 * i + 1)) (seq 0 (S (String.length PASSWORD)))))
    as [v|] eqn:Ev.
  - exists v. split; [exact Hs|]. cbn [typed press rel]. split; [reflexivity|].
    split; [exact Ev|].
    destruct (extract_features_Some _ _ _ _ Ev) as (Hlen & Hd & Hf).
    split; [exact Hlen|]. split.
    + intros i Hi. destruct (Hd i Hi) as (ri & pi & Hri & Hpi & Hv).
      rewrite list_lookup_fmap, lookup_seq_lt in Hri, Hpi by lia.
      cbn in Hri, Hpi. injection Hri as <-. injection Hpi as <-. exact Hv.
    + intros i Hi. destruct (Hf i Hi) as (pi & pj & Hpi & Hpj & Hv).
      rewrite list_lookup_fmap, lookup_seq_lt in Hpi, Hpj by lia.
      cbn in Hpi, Hpj. injection Hpi as <-. injection Hpj as <-. exact Hv.
  - exfalso. apply extract_features_None in Ev as [H|[H|H]]; [congruence| |];
      rewrite length_map, length_seq in H; lia.
Qed.

Lemma pynput_password_features_witness :
  exists s v,
    fst (record_keystrokes_pynput "Recording sample 1/3" listening_console) = Returned s /\
    typed s = PASSWORD /\
    extract_features (typed s) (press s) (rel s) = Some v /\
    length v = 2 * String.length PASSWORD - 1 /\
    (forall i, i < String.length PASSWORD ->
       v !! i = Some (F64.sub (tenths (0 + 2 * i + 1)) (tenths (0 + 2 * i)))) /\
    (forall i, 1 <= i < String.length PASSWORD ->
       v !! (String.length PASSWORD + i - 1) =
         Some (F64.sub (tenths (0 + 2 * i)) (tenths (0 + 2 * (i - 1))))).
Proof.
  apply (pynput_password_features "Recording sample 1/3" listening_console "" [] []);
    reflexivity.
Defined.
